(** * Email-Scheduler: the delayed-dispatch engine, embedded and verified

    The development follows the backend sources:
    - [services/email.service.ts]      the record store of scheduled emails
    - [services/emailLog.service.ts]   the audit log
    - [services/sender.service.ts]     the senders
    - [services/rateLimit.service.ts]  the per-sender hourly counter (Redis)
    - [utils/time.ts]                  hour windows
    - [queues/emailQueue.ts]           the BullMQ queue and [addEmailToQueue]
    - [workers/emailWorker.ts]         the job processor and [backoffStrategy]
    - [loaders/requeueOnRestart.ts]    restart recovery
    - [controllers/email.controller.ts] the schedule, cancel, delete-sender
                                        and statistics entrypoints
    - [config/redis.ts]                the connection's retry strategy

    Asynchronous code is embedded by explicit state passing over a [World]
    (database tables, Redis counters, queue, and the trace of calls made to
    the mail transport).  Everything the outside decides (the wall clock and
    the time zone of the process, whether Redis or the queue answers, what
    the SMTP server replies, the identifier the database generates) is read
    from an [Env] argument.  A JavaScript exception is a value [inr message]
    of a sum type.

    The database is taken to be reachable: a call to it fails only where a
    constraint of the schema is violated (the primary key and the UNIQUE key
    of table [emails], and the two foreign keys with ON DELETE CASCADE).  The
    statuses of the design documents map to the code's as PENDING = SCHEDULED,
    IN_PROGRESS and DEFERRED = RETRYING, DONE = SENT, FAILED = FAILED; the
    code has no CANCELLED status, a cancelled row is deleted. *)

From Stdlib Require Import ZArith String List Bool Lia Sorted Permutation.
From stdpp Require Import base option list gmap strings pretty.
Import ListNotations.

Local Open Scope string_scope.
Local Open Scope Z_scope.

(** ** Data model *)

(** [EmailStatus] of email.service.ts: the four values a row can carry. *)
Inductive EmailStatus := SCHEDULED | RETRYING | SENT | FAILED.

Definition EmailStatus_eqb (a b : EmailStatus) : bool :=
  match a, b with
  | SCHEDULED, SCHEDULED | RETRYING, RETRYING | SENT, SENT | FAILED, FAILED => true
  | _, _ => false
  end.

(** A row of table [emails].  [transformEmailFromDB] renames the columns to
    camelCase one by one and changes nothing else, so one record serves for
    the row and for the [Email] object.  Timestamps are milliseconds. *)
Record Email := mkEmail {
  id : string;
  sender_id : string;
  recipient_email : string;
  recipient_name : option string;
  subject : string;
  body : string;
  html_body : option string;
  scheduled_at : Z;
  sent_at : option Z;
  status : EmailStatus;
  attempt_count : Z;
  error_message : option string;
  idempotency_key : option string;
  created_at : Z;
  updated_at : Z
}.

(** A row of table [senders] (the columns the engine reads). *)
Record Sender := mkSender {
  s_id : string;
  s_user_id : string;
  s_name : string;
  s_email : string
}.

(** A row of table [email_logs]. *)
Record EmailLog := mkEmailLog {
  log_email_id : string;
  log_status : string;
  log_message : string;
  log_at : Z
}.

(** [EmailJobData] of emailQueue.ts. *)
Record EmailJobData := mkJobData {
  emailId : string;
  senderId : string;
  recipientEmail : string;
  recipientName : option string;
  jsubject : string;
  jbody : string;
  htmlBody : option string;
  attemptCount : Z
}.

(** [EmailOptions] of mailer.ts: what is handed to the transport. *)
Record EmailOptions := mkOptions {
  from : string;
  to : string;
  osubject : string;
  text : string;
  html : string
}.

(** JavaScript's [a || b] on an optional string: the empty string is falsy. *)
Definition truthy (o : option string) : bool :=
  match o with
  | Some s => negb (String.eqb s EmptyString)
  | None => false
  end.

Definition or_else (o : option string) (d : option string) : option string :=
  if truthy o then o else d.

(** ** The database

    The three tables of the setup guide's schema.  [emails.sender_id]
    references [senders(id)] and [email_logs.email_id] references
    [emails(id)], both ON DELETE CASCADE. *)

Record Db := mkDb {
  emails : list Email;
  senders : list Sender;
  email_logs : list EmailLog
}.

(** [.single()]: exactly one matching row, otherwise error PGRST116, which the
    services turn into [null]. *)
Definition single {A} (rows : list A) : option A :=
  match rows with
  | [r] => Some r
  | _ => None
  end.

Definition has_id (i : string) (e : Email) : bool := String.eqb (id e) i.

Definition has_key (k : string) (e : Email) : bool :=
  match idempotency_key e with
  | Some k' => String.eqb k' k
  | None => false
  end.

(** [getEmailById]. *)
Definition getEmailById (d : Db) (i : string) : option Email :=
  single (List.filter (has_id i) (emails d)).

(** [getEmailByIdempotencyKey]. *)
Definition getEmailByIdempotencyKey (d : Db) (k : string) : option Email :=
  single (List.filter (has_key k) (emails d)).

(** [getSenderById(id, userId?)]: [userId] narrows the query when truthy. *)
Definition getSenderById (d : Db) (i : string) (userId : option string) : option Sender :=
  single (List.filter (fun s => String.eqb (s_id s) i &&
                           match userId with
                           | Some u => if String.eqb u EmptyString then true
                                       else String.eqb (s_user_id s) u
                           | None => true
                           end) (senders d)).

(** [.update(f).eq('id', i)]: every row with that id is rewritten; no row
    matching is not an error. *)
Definition upd (i : string) (f : Email -> Email) (e : Email) : Email :=
  if has_id i e then f e else e.

Definition update_emails (i : string) (f : Email -> Email) (d : Db) : Db :=
  mkDb (map (upd i f) (emails d)) (senders d) (email_logs d).

(** The foreign key of [email_logs]: an entry is accepted only for an email
    that is stored. *)
Definition log_accepted (l : EmailLog) (d : Db) : bool :=
  existsb (has_id (log_email_id l)) (emails d).

(** [.from('email_logs').insert(l)] where the result is not looked at (the
    worker): a refused entry leaves the table as it is.  The worker writes
    the time into [attempted_at], the log service into [created_at]; either
    is [log_at]. *)
Definition insert_log (l : EmailLog) (d : Db) : Db :=
  if log_accepted l d then mkDb (emails d) (senders d) (email_logs d ++ [l]) else d.

(** The constraints of table [emails] on its own rows: [id] is the primary
    key and [idempotency_key] is UNIQUE (NULLs do not conflict). *)
Definition insert_conflicts (e : Email) (d : Db) : bool :=
  existsb (has_id (id e)) (emails d) ||
  match idempotency_key e with
  | Some k => existsb (has_key k) (emails d)
  | None => false
  end.

(** The foreign key of [emails]: the sender must be stored. *)
Definition sender_exists (sid : string) (d : Db) : bool :=
  existsb (fun s => String.eqb (s_id s) sid) (senders d).

(** The validated body of a schedule request ([CreateEmailData]). *)
Record CreateEmailData := mkCreate {
  c_senderId : string;
  c_recipientEmail : string;
  c_recipientName : option string;
  c_subject : string;
  c_body : string;
  c_htmlBody : option string;
  c_scheduledAt : Z;
  c_idempotencyKey : option string
}.

(** [createEmail]: inserts a SCHEDULED row with [attempt_count = 0]; the
    database supplies the id ([fresh]).  A constraint violation is thrown. *)
Definition createEmail (now : Z) (fresh : string) (data : CreateEmailData) (d : Db)
  : (Db * Email) + string :=
  let row := {|
    id := fresh;
    sender_id := c_senderId data;
    recipient_email := c_recipientEmail data;
    recipient_name := or_else (c_recipientName data) None;
    subject := c_subject data;
    body := c_body data;
    html_body := or_else (c_htmlBody data) None;
    scheduled_at := c_scheduledAt data;
    sent_at := None;
    status := SCHEDULED;
    attempt_count := 0;
    error_message := None;
    idempotency_key := or_else (c_idempotencyKey data) None;
    created_at := now;
    updated_at := now |} in
  if negb (sender_exists (c_senderId data) d)
  then inr "insert or update on table emails violates foreign key constraint"
  else if insert_conflicts row d
  then inr "duplicate key value violates unique constraint"
  else inl (mkDb (emails d ++ [row]) (senders d) (email_logs d), row).

(** [deleteEmail]: the row is removed ("CANCELLED is not a valid status"),
    and with it, by the cascade, the log entries that refer to it. *)
Definition deleteEmail (i : string) (d : Db) : Db :=
  mkDb (List.filter (fun e => negb (has_id i e)) (emails d)) (senders d)
       (List.filter (fun l => negb (String.eqb (log_email_id l) i)) (email_logs d)).

(** [createEmailLog]: the insert's error is thrown. *)
Definition createEmailLog (now : Z) (i st msg : string) (d : Db) : Db + string :=
  if log_accepted (mkEmailLog i st msg now) d
  then inl (insert_log (mkEmailLog i st msg now) d)
  else inr "insert or update on table email_logs violates foreign key constraint".

(** [deleteSender(id, userId)]: the sender of that id and user is removed;
    the cascade removes the emails of a removed sender and the log entries
    of a removed email. *)
Definition deleteSender (i userId : string) (d : Db) : Db :=
  let removed s := String.eqb (s_id s) i && String.eqb (s_user_id s) userId in
  let orphan e :=
    existsb (fun s => removed s && String.eqb (s_id s) (sender_id e)) (senders d) in
  let unlogged l := existsb (fun e => orphan e && has_id (log_email_id l) e) (emails d) in
  mkDb (List.filter (fun e => negb (orphan e)) (emails d))
       (List.filter (fun s => negb (removed s)) (senders d))
       (List.filter (fun l => negb (unlogged l)) (email_logs d)).

(** ** Time (utils/time.ts)

    Instants are milliseconds since the epoch.  The functions of time.ts read
    the fields of a [Date] in the local time of the process.  [Zone] is what
    the time zone contributes, as ECMAScript defines it: [LocalTZA_utc t] is
    the zone's offset at the instant [t], [LocalTZA_local tl] the offset by
    which the local time [tl] is turned back into an instant.  An hour window
    is labelled by the local date and hour ([YYYY-MM-DD-HH]); the label is
    represented by the index of that hour of local time. *)

Record Zone := mkZone {
  LocalTZA_utc : Z -> Z;
  LocalTZA_local : Z -> Z
}.

Definition LocalTime (z : Zone) (t : Z) : Z := t + LocalTZA_utc z t.

Definition UTC (z : Zone) (tl : Z) : Z := tl - LocalTZA_local z tl.

Definition HOUR_MS : Z := 3600000.

Definition getCurrentHourWindow (z : Zone) (now : Z) : Z := LocalTime z now / HOUR_MS.

(** [now.setHours(now.getHours() + 1)]: the same minute of the next local
    hour. *)
Definition getNextHourWindow (z : Zone) (now : Z) : Z :=
  LocalTime z (UTC z (LocalTime z now + HOUR_MS)) / HOUR_MS.

(** [now.setHours(now.getHours() + 1, 0, 0, 0)]: the start of the next local
    hour. *)
Definition getNextHourTimestamp (z : Zone) (now : Z) : Z :=
  UTC z ((LocalTime z now / HOUR_MS + 1) * HOUR_MS).

(** A zone whose offset never changes, and UTC itself. *)
Definition fixed_zone (offset : Z) : Zone := mkZone (fun _ => offset) (fun _ => offset).

Definition utc : Zone := fixed_zone 0.

(** ** What the outside decides during one call *)

(** The places where an attempt of the worker reads the clock again after it
    has started. *)
Inductive Reading :=
  | CheckResetAt            (* step 1, checkRateLimit: resetAt *)
  | CheckNextWindow         (* step 1, checkRateLimit: nextWindow *)
  | ProcessingUpdatedAt     (* step 2, updated_at *)
  | SentAt                  (* step 7, sent_at *)
  | SentUpdatedAt           (* step 7, updated_at *)
  | SentAttemptedAt         (* step 8, attempted_at *)
  | IncrementWindow         (* step 9, the hour window incrementRateLimit reads *)
  | CatchUpdatedAt          (* catch, updated_at *)
  | CatchAttemptedAt        (* catch, attempted_at *)
  | BackoffNow.             (* backoffStrategy, now *)

Record Env := mkEnv {
  now : Z;                      (* the wall clock when the call starts *)
  zone : Zone;                  (* the time zone of the process *)
  clock : Reading -> Z;         (* the wall clock at the later readings *)
  redis_get_ok : bool;          (* redis.get answers *)
  redis_incr_ok : bool;         (* redis.incr answers *)
  redis_expire_ok : bool;       (* redis.expire answers *)
  redis_error : string;         (* the message of the error Redis raises otherwise *)
  queue_ok : bool;              (* the queue answers *)
  queue_error : string;         (* the message of the error it raises otherwise *)
  db_ok : bool;                 (* the recovery query answers *)
  smtp : string + string;       (* transporter.sendMail: messageId, or the error's message *)
  fresh_id : string             (* gen_random_uuid() *)
}.

(** The environment of a call that starts at [t], within the call [env]. *)
Definition at_time (t : Z) (env : Env) : Env :=
  mkEnv t (zone env) (clock env) (redis_get_ok env) (redis_incr_ok env) (redis_expire_ok env)
    (redis_error env) (queue_ok env) (queue_error env) (db_ok env) (smtp env) (fresh_id env).

(** ** Rate limiter (services/rateLimit.service.ts) *)

Record RateLimitStatus := mkStatus {
  allowed : bool;
  current : Z;
  limit : Z;
  resetAt : Z;
  nextWindow : Z
}.

Definition rate_key (z : Zone) (sender : string) (now : Z) : string :=
  "rate_limit:" +:+ sender +:+ ":" +:+ pretty (getCurrentHourWindow z now).

Section RateLimit.
(** [MAX_EMAILS_PER_HOUR_PER_SENDER], 100 unless the environment says
    otherwise. *)
Variable MAX_EMAILS_PER_HOUR : Z.

(** [checkRateLimit]: the key is that of the hour in which the call starts;
    the reset time and the next window are read once Redis has answered. *)
Definition checkRateLimit (env : Env) (redis : gmap string Z) (sender : string)
  : RateLimitStatus :=
  if redis_get_ok env then
    let count := default 0 (redis !! rate_key (zone env) sender (now env)) in
    {| allowed := count <? MAX_EMAILS_PER_HOUR;
       current := count;
       limit := MAX_EMAILS_PER_HOUR;
       resetAt := getNextHourTimestamp (zone env) (clock env CheckResetAt);
       nextWindow := getNextHourWindow (zone env) (clock env CheckNextWindow) |}
  else
    (* Fail open - allow the email in case of Redis error *)
    {| allowed := true;
       current := 0;
       limit := MAX_EMAILS_PER_HOUR;
       resetAt := clock env CheckResetAt;
       nextWindow := getNextHourWindow (zone env) (clock env CheckNextWindow) |}.

(** [incrementRateLimit]: INCR then EXPIRE; the [catch] logs and rethrows.
    The expiry of 7200 s outlives the window the key belongs to, and a key
    is read only within its window, so expiry is not represented. *)
Definition incrementRateLimit (env : Env) (redis : gmap string Z) (sender : string)
  : gmap string Z * (Z + string) :=
  if redis_incr_ok env then
    let k := rate_key (zone env) sender (now env) in
    let newCount := default 0 (redis !! k) + 1 in
    let redis' := <[k := newCount]> redis in
    if redis_expire_ok env then (redis', inl newCount)
    else (redis', inr (redis_error env))
  else (redis, inr (redis_error env)).
End RateLimit.

(** ** The queue (queues/emailQueue.ts)

    BullMQ itself is a library; its contract is written out as far as the
    repository relies on it: [add] with a [jobId] that is already present
    returns the existing job and adds nothing; without a [jobId] the queue
    numbers the job itself; a job whose processor throws is retried while
    fewer than [attempts] attempts were made, after the delay of the job's
    [backoff] option, and is moved to failed otherwise.  For the backoff
    types the library has built in ([fixed], [exponential]) it computes the
    delay itself; the [backoffStrategy] of the worker's settings is called
    for any other type only. *)

Inductive JobId := AutoId (n : nat) | CustomId (s : string).

Definition JobId_eqb (a b : JobId) : bool :=
  match a, b with
  | AutoId n, AutoId m => Nat.eqb n m
  | CustomId s, CustomId t => String.eqb s t
  | _, _ => false
  end.

Inductive JobState := Delayed (delay : Z) | Waiting | Completed | JobFailed.

Record Job := mkJob {
  job_id : JobId;
  job_data : EmailJobData;
  job_state : JobState;
  attemptsMade : nat;
  failedReason : option string
}.

Record Queue := mkQueue {
  jobs : list Job;
  job_counter : nat
}.

(** [defaultJobOptions.attempts]. *)
Definition attempts : nat := 3.

Inductive BackoffType := Fixed | Exponential | Custom.

Record BackoffOptions := mkBackoff {
  backoff_type : BackoffType;
  backoff_delay : Z
}.

(** [defaultJobOptions.backoff]: [{ type: 'exponential', delay: 2000 }]. *)
Definition defaultBackoff : BackoffOptions := mkBackoff Exponential 2000.

(** The library's exponential strategy,
    [Math.round(Math.pow(2, attemptsMade - 1) * delay)]. *)
Definition builtin_exponential (delay : Z) (attemptsMade : nat) : Z :=
  match attemptsMade with
  | O => (delay + 1) / 2
  | S n => 2 ^ Z.of_nat n * delay
  end.

(** The delay before the retry that follows the failure number
    [attemptsMade]. *)
Definition calculate_backoff (b : BackoffOptions) (customStrategy : nat -> string -> Z)
  (attemptsMade : nat) (err : string) : Z :=
  match backoff_type b with
  | Fixed => backoff_delay b
  | Exponential => builtin_exponential (backoff_delay b) attemptsMade
  | Custom => customStrategy attemptsMade err
  end.

Definition has_job_id (j : JobId) (x : Job) : bool := JobId_eqb (job_id x) j.

Definition getJob (q : Queue) (j : JobId) : option Job := find (has_job_id j) (jobs q).

Definition initial_state (delay : Z) : JobState :=
  if 0 <? delay then Delayed delay else Waiting.

(** [emailQueue.add('send-email', data, { delay, jobId, priority: 1 })]. *)
Definition queue_add (data : EmailJobData) (delay : Z) (jobId : option string) (q : Queue)
  : Queue * JobId :=
  match (if truthy jobId then jobId else None) with
  | Some s =>
      if existsb (has_job_id (CustomId s)) (jobs q) then (q, CustomId s)
      else (mkQueue (jobs q ++ [mkJob (CustomId s) data (initial_state delay) 0 None])
                    (job_counter q), CustomId s)
  | None =>
      let n := S (job_counter q) in
      (mkQueue (jobs q ++ [mkJob (AutoId n) data (initial_state delay) 0 None]) n, AutoId n)
  end.

(** [addEmailToQueue(emailData, scheduledAt, idempotencyKey?)]. *)
Definition addEmailToQueue (env : Env) (data : EmailJobData) (scheduledAt : Z)
  (idempotencyKey : option string) (q : Queue) : Queue * (JobId + string) :=
  let delay := Z.max 0 (scheduledAt - now env) in
  if queue_ok env then
    let '(q', j) := queue_add data delay idempotencyKey q in (q', inl j)
  else (q, inr (queue_error env)).

(** [removeEmailFromQueue(jobId)]: the job, if there is one, is removed; an
    error of the queue is logged and thrown on.  No entrypoint calls it. *)
Definition removeEmailFromQueue (env : Env) (j : JobId) (q : Queue)
  : Queue * (unit + string) :=
  if queue_ok env then
    (mkQueue (List.filter (fun x => negb (has_job_id j x)) (jobs q)) (job_counter q), inl tt)
  else (q, inr (queue_error env)).

(** ** The world the engine acts on *)

Record World := mkWorld {
  db : Db;
  redis : gmap string Z;
  queue : Queue;
  mail_calls : list EmailOptions      (* every call of [sendEmail], oldest first *)
}.

Definition with_db (f : Db -> Db) (w : World) : World :=
  mkWorld (f (db w)) (redis w) (queue w) (mail_calls w).

Definition with_redis (r : gmap string Z) (w : World) : World :=
  mkWorld (db w) r (queue w) (mail_calls w).

Definition with_queue (f : Queue -> Queue) (w : World) : World :=
  mkWorld (db w) (redis w) (f (queue w)) (mail_calls w).

Definition with_mail (o : EmailOptions) (w : World) : World :=
  mkWorld (db w) (redis w) (queue w) (mail_calls w ++ [o]).

(** The three shapes of [.update({...})] the engine issues. *)
Definition set_processing (t : Z) (e : Email) : Email :=
  mkEmail (id e) (sender_id e) (recipient_email e) (recipient_name e) (subject e) (body e)
    (html_body e) (scheduled_at e) (sent_at e) RETRYING (attempt_count e)
    (error_message e) (idempotency_key e) (created_at e) t.

Definition set_sent (t_sent t_updated : Z) (e : Email) : Email :=
  mkEmail (id e) (sender_id e) (recipient_email e) (recipient_name e) (subject e) (body e)
    (html_body e) (scheduled_at e) (Some t_sent) SENT (attempt_count e)
    (error_message e) (idempotency_key e) (created_at e) t_updated.

Definition set_error (st : EmailStatus) (msg : string) (t : Z) (e : Email) : Email :=
  mkEmail (id e) (sender_id e) (recipient_email e) (recipient_name e) (subject e) (body e)
    (html_body e) (scheduled_at e) (sent_at e) st (attempt_count e)
    (Some msg) (idempotency_key e) (created_at e) t.

(** ** The worker (workers/emailWorker.ts) *)

(** [MIN_DELAY_BETWEEN_EMAILS_MS], 2000 unless the environment says
    otherwise: the time the processor waits before it sends. *)
Definition MIN_DELAY_MS : Z := 2000.

Definition is_rate_limited (msg : string) : bool := String.prefix "RATE_LIMITED" msg.

(** The message of the error thrown at step 1; the next window is printed as
    its index. *)
Definition rate_limited_message (st : RateLimitStatus) : string :=
  "RATE_LIMITED: " +:+ pretty (current st) +:+ "/" +:+ pretty (limit st) +:+
  " emails sent. Next window: " +:+ pretty (nextWindow st).

Definition quote : string := String (Ascii.ascii_of_nat 34) EmptyString.

Definition mail_options (sender : Sender) (data : EmailJobData) : EmailOptions :=
  {| from := quote +:+ (if String.eqb (s_name sender) EmptyString
                        then "Email Scheduler" else s_name sender)
             +:+ quote +:+ " <" +:+ s_email sender +:+ ">";
     to := recipientEmail data;
     osubject := jsubject data;
     text := jbody data;
     html := if truthy (htmlBody data) then default (jbody data) (htmlBody data)
             else jbody data |}.

(** The [catch] block of the processor: the row is marked by the kind of
    error, and the error is thrown on to the queue. *)
Definition catch_block (env : Env) (data : EmailJobData) (msg : string) (w : World)
  : World * (string + string) :=
  if is_rate_limited msg then
    (with_db (update_emails (emailId data)
                (set_error RETRYING msg (clock env CatchUpdatedAt))) w, inr msg)
  else
    (with_db (fun d =>
        insert_log (mkEmailLog (emailId data) "FAILED" ("Send failed: " +:+ msg)
                      (clock env CatchAttemptedAt))
          (update_emails (emailId data) (set_error FAILED msg (clock env CatchUpdatedAt)) d)) w,
     inr msg).

(** The custom backoff strategy of the worker's settings. *)
Definition backoffStrategy (z : Zone) (now : Z) (attemptsMade : nat) (err : string) : Z :=
  if is_rate_limited err then getNextHourTimestamp z now - now
  else Z.min (2 ^ Z.of_nat attemptsMade * 1000) 60000.

Section Worker.
Variable MAX_EMAILS_PER_HOUR : Z.

(** The processor of one job: [inl messageId] is its return value,
    [inr message] the error it throws. *)
Definition processor (env : Env) (data : EmailJobData) (w : World)
  : World * (string + string) :=
  (* 1. Check rate limit before sending *)
  let st := checkRateLimit MAX_EMAILS_PER_HOUR env (redis w) (senderId data) in
  if negb (allowed st) then catch_block env data (rate_limited_message st) w
  else
    (* 2. Update email status to RETRYING (processing) *)
    let w1 := with_db (update_emails (emailId data)
                         (set_processing (clock env ProcessingUpdatedAt))) w in
    (* 3. Get sender SMTP details *)
    match getSenderById (db w1) (senderId data) None with
    | None => catch_block env data ("Sender " +:+ senderId data +:+ " not found") w1
    | Some sender =>
        (* 4. and 5. (the throttle delay of MIN_DELAY_MS, the transporter) leave
           the world as it is; the clock moves on *)
        (* 6. Send the email *)
        let w2 := with_mail (mail_options sender data) w1 in
        match smtp env with
        | inr msg => catch_block env data msg w2
        | inl messageId =>
            (* 7. Update email status to SENT *)
            let w3 := with_db (update_emails (emailId data)
                                 (set_sent (clock env SentAt) (clock env SentUpdatedAt))) w2 in
            (* 8. Create email log entry *)
            let w4 := with_db (insert_log (mkEmailLog (emailId data) "SENT"
                        ("Email sent successfully. Message ID: " +:+ messageId)
                        (clock env SentAttemptedAt))) w3 in
            (* 9. Increment rate limit counter *)
            let '(r, res) := incrementRateLimit (at_time (clock env IncrementWindow) env)
                               (redis w4) (senderId data) in
            let w5 := with_redis r w4 in
            match res with
            | inr msg => catch_block env data msg w5
            | inl _ => (w5, inl messageId)
            end
        end
    end.

(** What the queue does with a job once its processor has returned or
    thrown. *)
Definition settle (env : Env) (res : string + string) (x : Job) : Job :=
  match res with
  | inl _ => mkJob (job_id x) (job_data x) Completed (attemptsMade x) (failedReason x)
  | inr msg =>
      let made := S (attemptsMade x) in
      if (made <? attempts)%nat
      then mkJob (job_id x) (job_data x)
             (initial_state
                (calculate_backoff defaultBackoff
                   (backoffStrategy (zone env) (clock env BackoffNow)) made msg))
             made (Some msg)
      else mkJob (job_id x) (job_data x) JobFailed made (Some msg)
  end.

Definition eligible (x : Job) : bool :=
  match job_state x with
  | Delayed _ | Waiting => true
  | Completed | JobFailed => false
  end.

(** A pending job becomes eligible and one attempt is made on it. *)
Definition runJob (env : Env) (j : JobId) (w : World) : World :=
  match getJob (queue w) j with
  | Some x =>
      if eligible x then
        let '(w', res) := processor env (job_data x) w in
        with_queue (fun q =>
          mkQueue (map (fun y => if has_job_id j y then settle env res y else y) (jobs q))
                  (job_counter q)) w'
      else w
  | None => w
  end.
End Worker.

(** ** Restart recovery (loaders/requeueOnRestart.ts) *)

Fixpoint insert_by_scheduled_at (e : Email) (l : list Email) : list Email :=
  match l with
  | [] => [e]
  | x :: r => if scheduled_at e <=? scheduled_at x then e :: l
              else x :: insert_by_scheduled_at e r
  end.

(** [.order('scheduled_at', { ascending: true })]. *)
Definition order_by_scheduled_at (l : list Email) : list Email :=
  fold_right insert_by_scheduled_at [] l.

Definition is_pending (e : Email) : bool :=
  EmailStatus_eqb (status e) SCHEDULED || EmailStatus_eqb (status e) RETRYING.

(** The loader's query:
    [.in('status', ['SCHEDULED', 'RETRYING']).gte('scheduled_at', now)]. *)
Definition pending_query (tq : Z) (d : Db) : list Email :=
  order_by_scheduled_at
    (List.filter (fun e => is_pending e && (tq <=? scheduled_at e)) (emails d)).

Definition job_data_of (email : Email) : EmailJobData :=
  {| emailId := id email;
     senderId := sender_id email;
     recipientEmail := recipient_email email;
     recipientName := or_else (recipient_name email) None;
     jsubject := subject email;
     jbody := body email;
     htmlBody := or_else (html_body email) None;
     attemptCount := 0 |}.

Definition stale_message : string :=
  "Email scheduled time has passed during server restart".

(** The job id recovery passes: [email.idempotency_key || email.id]. *)
Definition recovery_job_id (email : Email) : option string :=
  or_else (idempotency_key email) (Some (id email)).

(** The body of the loader's loop for one fetched row.  An error of
    [addEmailToQueue] is caught and logged; the world stays as it is. *)
Definition requeue_one (env : Env) (w : World) (email : Email) : World :=
  if scheduled_at email <? now env then
    with_db (update_emails (id email) (set_error FAILED stale_message (now env))) w
  else
    let '(q, _) := addEmailToQueue env (job_data_of email) (scheduled_at email)
                     (recovery_job_id email) (queue w) in
    with_queue (fun _ => q) w.

(** [requeuePendingEmails]: [tq] is the instant the query is evaluated at,
    [now env] the instant the loop reads afterwards. *)
Definition requeuePendingEmails (tq : Z) (env : Env) (w : World) : World :=
  if db_ok env then fold_left (requeue_one env) (pending_query tq (db w)) w
  else w.

(** ** The entrypoints (controllers/email.controller.ts) *)

Record Response := mkResponse {
  code : Z;
  message : string;
  email : option Email
}.

(** [scheduleEmailController], from the parsed body on. *)
Definition scheduleEmailController (env : Env) (userId : string) (data : CreateEmailData)
  (w : World) : World * Response :=
  match getSenderById (db w) (c_senderId data) (Some userId) with
  | None => (w, mkResponse 403 "Sender not found or access denied" None)
  | Some _ =>
      let existingEmail :=
        match c_idempotencyKey data with
        | Some k => if truthy (Some k) then getEmailByIdempotencyKey (db w) k else None
        | None => None
        end in
      match existingEmail with
      | Some e => (w, mkResponse 200 "Email already scheduled" (Some e))
      | None =>
          match createEmail (now env) (fresh_id env) data (db w) with
          | inr msg => (w, mkResponse 500 msg None)
          | inl (d, email) =>
              let w1 := with_db (fun _ => d) w in
              (* the queue error is caught: "still return success but log warning" *)
              let '(q, _) := addEmailToQueue env (job_data_of email) (scheduled_at email)
                               (or_else (idempotency_key email) None) (queue w1) in
              let w2 := with_queue (fun _ => q) w1 in
              match createEmailLog (now env) (id email) "SCHEDULED"
                      "Email scheduled successfully" (db w2) with
              | inr msg => (w2, mkResponse 500 msg None)
              | inl d' =>
                  (with_db (fun _ => d') w2,
                   mkResponse 201 "Email scheduled successfully" (Some email))
              end
          end
      end
  end.

(** [cancelEmailController]. *)
Definition cancelEmailController (env : Env) (userId : string) (i : string) (w : World)
  : World * Response :=
  match getEmailById (db w) i with
  | None => (w, mkResponse 404 "Email not found" None)
  | Some email =>
      match getSenderById (db w) (sender_id email) (Some userId) with
      | None => (w, mkResponse 403 "Access denied" None)
      | Some _ =>
          let w1 := with_db (deleteEmail i) w in
          match createEmailLog (now env) i "CANCELLED" "Email cancelled" (db w1) with
          | inr _ => (w1, mkResponse 500 "Failed to cancel email" None)
          | inl d' =>
              (with_db (fun _ => d') w1, mkResponse 200 "Email cancelled successfully" None)
          end
      end
  end.

(** [deleteSenderController]. *)
Definition deleteSenderController (userId : string) (senderId : string) (w : World)
  : World * Response :=
  match getSenderById (db w) senderId (Some userId) with
  | None => (w, mkResponse 403 "Access denied" None)
  | Some _ =>
      (with_db (deleteSender senderId userId) w,
       mkResponse 200 "Sender deleted successfully" None)
  end.

(** ** Scenarios

    Concrete worlds and environments on which the engine is run. *)

Definition pending_jobs_for (i : string) (q : Queue) : list Job :=
  List.filter (fun x => eligible x && String.eqb (emailId (job_data x)) i) (jobs q).

Definition run_attempts (MAX : Z) (j : JobId) (envs : list Env) (w : World) : World :=
  fold_left (fun w env => runJob MAX env j w) envs w.

Definition alice : Sender := mkSender "s1" "u1" "Alice" "alice@example.com".


(** The clock of a call that starts at [t]: the readings taken after the
    throttle delay are later by [MIN_DELAY_MS]. *)
Definition clock_from (t : Z) (r : Reading) : Z :=
  match r with
  | CheckResetAt | CheckNextWindow | ProcessingUpdatedAt => t
  | _ => t + MIN_DELAY_MS
  end.

Definition env_at (t : Z) (reply : string + string) (fresh : string) : Env :=
  mkEnv t utc (clock_from t) true true true "Connection is closed." true
    "Connection is closed." true reply fresh.

Definition world0 : World := mkWorld (mkDb [] [alice] []) ∅ (mkQueue [] 0) [].

Definition to_bob (at_ : Z) (key : option string) : CreateEmailData :=
  mkCreate "s1" "bob@example.com" None "Hi" "Hello" None at_ key.

(** Bob's email, due at 5000, submitted at 1000 without an idempotency key. *)
Definition world_scheduled : World :=
  fst (scheduleEmailController (env_at 1000 (inl "m0") "e1") "u1" (to_bob 5000 None) world0).

Definition bob_data : EmailJobData :=
  mkJobData "e1" "s1" "bob@example.com" None "Hi" "Hello" None 0.

Definition bob_job (st : JobState) (made : nat) (reason : option string) : Job :=
  mkJob (AutoId 1) bob_data st made reason.

Definition bob_row (due : Z) : Email :=
  mkEmail "e1" "s1" "bob@example.com" None "Hi" "Hello" None due None SCHEDULED 0
    None None 1000 1000.

(** The attempt at 5000 whose delivery the SMTP server refuses for good. *)
Definition world_refused : World :=
  runJob 100 (env_at 5000 (inr "Invalid recipient") "e2") (AutoId 1) world_scheduled.

(** The attempt at 5000 whose delivery times out. *)
Definition world_timed_out : World :=
  runJob 100 (env_at 5000 (inr "Connection timeout") "e2") (AutoId 1) world_scheduled.

(** The persisted attempt counts of [d'] are those of [d]. *)
Definition counts_kept (d d' : Db) : Prop :=
  forall i, attempt_count <$> getEmailById d' i = attempt_count <$> getEmailById d i.

(** A sender whose counter for the hour starting at 3600000 is at the limit
    of 100; Bob's email is due at 3595000. *)
Definition world_busy : World :=
  fst (scheduleEmailController (env_at 1000 (inl "m0") "e1") "u1" (to_bob 3595000 None)
         (mkWorld (mkDb [] [alice] []) {[ rate_key utc "s1" 3601000 := 100 ]}
            (mkQueue [] 0) [])).

(** Two attempts time out in the hour before. *)
Definition world_busy_twice_failed : World :=
  run_attempts 100 (AutoId 1)
    [env_at 3595000 (inr "Connection timeout") "e2";
     env_at 3599000 (inr "Connection timeout") "e2"] world_busy.

(** The third attempt falls into the full hour. *)
Definition world_busy_third : World :=
  runJob 100 (env_at 3605000 (inl "m1") "e2") (AutoId 1) world_busy_twice_failed.

(** Bob's email is cancelled at 2000, before it is due. *)
Definition world_cancelled : World :=
  fst (cancelEmailController (env_at 2000 (inl "m0") "e2") "u1" "e1" world_scheduled).

(** Bob's email is due and delivered at 5000, and Redis is down when the
    counter is to be incremented. *)
Definition env_redis_down : Env :=
  mkEnv 5000 utc (clock_from 5000) true false false "Connection is closed." true
    "Connection is closed." true (inl "m1") "e2".

Definition world_delivered_redis_down : World :=
  runJob 100 env_redis_down (AutoId 1) world_scheduled.

(** The queue refuses the job at submission, and the process restarts at
    6000, after the email was due. *)
Definition env_queue_down (t : Z) (fresh : string) : Env :=
  mkEnv t utc (clock_from t) true true true "Connection is closed." false
    "Connection is closed." true (inl "m0") fresh.

Definition world_unqueued : World :=
  fst (scheduleEmailController (env_queue_down 1000 "e1") "u1" (to_bob 5000 None) world0).

Definition world_restarted_late : World :=
  requeuePendingEmails 6000 (env_at 6000 (inl "m1") "e2") world_unqueued.

(** The process restarts at 2000 while the job of the submission is still in
    the queue. *)
Definition world_recovered_early : World :=
  requeuePendingEmails 2000 (env_at 2000 (inl "m1") "e2") world_scheduled.



(** A request with the key "k1". *)
Definition first_call_k1 : World * Response :=
  scheduleEmailController (env_at 1000 (inl "m0") "e1") "u1" (to_bob 5000 (Some "k1")) world0.






(** ** The rest of the services

    Functions of the same files that the scenarios above do not exercise. *)

(** The budget of transport calls a job still has: none once it is completed
    or failed, otherwise what is left of the 3 attempts (at least the one a
    pending job always gets). *)
Definition calls_left (j : JobId) (q : Queue) : nat :=
  match getJob q j with
  | Some x => if eligible x then Nat.max 1 (attempts - attemptsMade x) else 0%nat
  | None => 0%nat
  end.

(** The counter after the deliveries counted in [envs], one after the other. *)
Definition count_deliveries (sender : string) (envs : list Env) (r : gmap string Z)
  : gmap string Z :=
  fold_left (fun r env => fst (incrementRateLimit env r sender)) envs r.

(** The sender s1 is deleted by its owner while Bob's job is in the queue. *)
Definition world_sender_deleted : World :=
  fst (deleteSenderController "u1" "s1" world_scheduled).

(** Redis does not answer the read of the counter. *)
Definition env_redis_read_down : Env :=
  mkEnv 3601000 utc (clock_from 3601000) false true true "Connection is closed." true
    "Connection is closed." true (inl "m1") "e2".

(** The zone of Asia/Kolkata, five and a half hours ahead of UTC. *)
Definition kolkata : Zone := fixed_zone 19800000.

(** The order of [.order('scheduled_at', { ascending: true })]. *)
Definition by_scheduled_at (a b : Email) : Prop := scheduled_at a <= scheduled_at b.

(** A job as recovery creates it for row [r] at the instant [t]. *)
Definition recovered_from (t : Z) (r : Email) (x : Job) : Prop :=
  job_data x = job_data_of r /\
  job_state x = initial_state (Z.max 0 (scheduled_at r - t)) /\
  attemptsMade x = 0%nat.

(** Two rows stored under different keys, and a restart at 2000 followed by
    another at 3000. *)
Definition world_two_rows : World :=
  fst (scheduleEmailController (env_at 1100 (inl "m0") "e2") "u1" (to_bob 9000 (Some "k2"))
         world_unqueued).

(** A restart whose query runs at 4000 and whose loop runs at 6000, after
    Bob's email, due at 5000, has fallen due in between. *)
Definition world_restarted_across_due_time : World :=
  requeuePendingEmails 4000 (env_at 6000 (inl "m1") "e2") world_unqueued.

(** The constraints of table [emails]: [id] is its primary key and
    [idempotency_key] is UNIQUE where it is not NULL. *)
Definition stored_keys (l : list Email) : list string :=
  flat_map (fun e => match idempotency_key e with Some k => [k] | None => [] end) l.

Definition constraints_hold (d : Db) : Prop :=
  List.NoDup (map id (emails d)) /\ List.NoDup (stored_keys (emails d)).

(** [d'] stores the same ids and keys as [d], row by row. *)
Definition same_identity (d d' : Db) : Prop :=
  map id (emails d') = map id (emails d) /\
  stored_keys (emails d') = stored_keys (emails d).

(** The row the first call with key "k1" stores. *)
Definition bob_key_row : Email :=
  mkEmail "e1" "s1" "bob@example.com" None "Hi" "Hello" None 5000 None SCHEDULED 0
    None (Some "k1") 1000 1000.



(** ** Listing and statistics (email.service.ts, email.controller.ts) *)

(** Does user [userId] own a sender with id [sid]? *)
Definition owns (d : Db) (userId sid : string) : bool :=
  existsb (fun s => String.eqb (s_id s) sid && String.eqb (s_user_id s) userId) (senders d).

Fixpoint insert_by_scheduled_at_desc (e : Email) (l : list Email) : list Email :=
  match l with
  | [] => [e]
  | x :: r => if scheduled_at x <=? scheduled_at e then e :: l
              else x :: insert_by_scheduled_at_desc e r
  end.

(** [.order('scheduled_at', { ascending: false })]. *)
Definition order_by_scheduled_at_desc (l : list Email) : list Email :=
  fold_right insert_by_scheduled_at_desc [] l.

Definition later_first (a b : Email) : Prop := scheduled_at b <= scheduled_at a.

(** The [filters] argument of the two listing functions; a limit or offset
    of 0 is falsy and counts as absent. *)
Record EmailFilters := mkFilters {
  f_status : option EmailStatus;
  f_limit : option nat;
  f_offset : option nat
}.

Definition truthy_nat (o : option nat) : option nat :=
  match o with
  | Some (S n) => Some (S n)
  | _ => None
  end.

(** [.limit(n)] and [.range(from, to)]: a range sets both the offset and the
    number of rows, [to - from + 1]. *)
Definition paginate (f : EmailFilters) (rows : list Email) : list Email :=
  match truthy_nat (f_offset f) with
  | Some off => firstn (default 10%nat (truthy_nat (f_limit f))) (skipn off rows)
  | None =>
      match truthy_nat (f_limit f) with
      | Some n => firstn n rows
      | None => rows
      end
  end.

Definition apply_filters (f : EmailFilters) (rows : list Email) : list Email :=
  paginate f
    (order_by_scheduled_at_desc
       (match f_status f with
        | Some st => List.filter (fun e => EmailStatus_eqb (status e) st) rows
        | None => rows
        end)).

(** [getEmailsBySenderId]. *)
Definition getEmailsBySenderId (d : Db) (sid : string) (f : EmailFilters) : list Email :=
  apply_filters f (List.filter (fun e => String.eqb (sender_id e) sid) (emails d)).

(** [getEmailsByUserId]: the ids of the user's senders first, then the
    emails of those senders; a user without senders gets the empty list. *)
Definition getEmailsByUserId (d : Db) (userId : string) (f : EmailFilters) : list Email :=
  let senderIds := map s_id (List.filter (fun s => String.eqb (s_user_id s) userId) (senders d)) in
  match senderIds with
  | [] => []
  | _ => apply_filters f
           (List.filter (fun e => existsb (String.eqb (sender_id e)) senderIds) (emails d))
  end.

Definition DAY_MS : Z := 86400000.

Record EmailStats := mkStats {
  totalScheduled : nat;
  totalSent : nat;
  totalFailed : nat;
  pendingToday : nat
}.

(** [getEmailStatsController]: the counts over up to 10000 emails of the
    user; two instants have the same [toDateString()] when they fall on the
    same day of local time. *)
Definition getEmailStatsController (z : Zone) (now : Z) (userId : string) (d : Db)
  : EmailStats :=
  let allEmails := getEmailsByUserId d userId (mkFilters None (Some (N.to_nat 10000)) None) in
  {| totalScheduled := length (List.filter is_pending allEmails);
     totalSent := length (List.filter (fun e => EmailStatus_eqb (status e) SENT) allEmails);
     totalFailed := length (List.filter (fun e => EmailStatus_eqb (status e) FAILED) allEmails);
     pendingToday :=
       length (List.filter
                 (fun e => is_pending e &&
                           (LocalTime z (scheduled_at e) / DAY_MS =? LocalTime z now / DAY_MS))
                 allEmails) |}.

(** ** Redis (config/redis.ts, rateLimit.service.ts) *)

(** [retryStrategy] of the connection. *)
Definition retryStrategy (times : Z) : Z := Z.min (times * 50) 2000.

(** [resetRateLimit]: DEL on the key of the current window; [ok] tells
    whether Redis answers, [err] is the message of the error it raises
    otherwise, which is logged and rethrown. *)
Definition resetRateLimit (ok : bool) (err : string) (z : Zone) (now : Z)
  (redis : gmap string Z) (sender : string) : gmap string Z * (unit + string) :=
  if ok then (delete (rate_key z sender now) redis, inl tt) else (redis, inr err).

(** A third row, due at 3000 and stored without key. *)
Definition world_listing : World :=
  fst (scheduleEmailController (env_at 1200 (inl "m0") "e3") "u1" (to_bob 3000 None)
         world_two_rows).

(** * Verification *)

(** ** Lists, rows and jobs *)

Lemma single_map {A B} (g : A -> B) (l : list A) :
  single (map g l) = g <$> single l.
Proof. destruct l as [|a [|b l]]; reflexivity. Qed.

Lemma filter_has_id_upd i j f l :
  (forall e, id (f e) = id e) ->
  List.filter (has_id j) (map (upd i f) l) = map (upd i f) (List.filter (has_id j) l).
Proof.
  intros Hid. induction l as [|e l IH]; simpl; [reflexivity|].
  assert (Hj : has_id j (upd i f e) = has_id j e).
  { unfold upd, has_id. destruct (String.eqb (id e) i); [rewrite Hid|]; reflexivity. }
  rewrite Hj. destruct (has_id j e); simpl; rewrite IH; reflexivity.
Qed.

Lemma getEmailById_update i j f d :
  (forall e, id (f e) = id e) ->
  getEmailById (update_emails i f d) j = upd i f <$> getEmailById d j.
Proof.
  intros Hid. unfold getEmailById, update_emails. simpl.
  rewrite filter_has_id_upd by assumption. apply single_map.
Qed.

Lemma getEmailById_has_id d i e : getEmailById d i = Some e -> has_id i e = true.
Proof.
  unfold getEmailById. intros H.
  assert (Hin : In e (List.filter (has_id i) (emails d))).
  { destruct (List.filter (has_id i) (emails d)) as [|a [|b l]]; try discriminate.
    injection H as ->. left. reflexivity. }
  apply filter_In in Hin. tauto.
Qed.

Lemma getEmailById_update_same i f d e :
  (forall e, id (f e) = id e) ->
  getEmailById d i = Some e ->
  getEmailById (update_emails i f d) i = Some (f e).
Proof.
  intros Hid He. rewrite getEmailById_update by assumption. rewrite He. simpl.
  unfold upd. rewrite (getEmailById_has_id _ _ _ He). reflexivity.
Qed.

Lemma emails_insert_log l d : emails (insert_log l d) = emails d.
Proof. unfold insert_log. destruct (log_accepted l d); reflexivity. Qed.

Lemma senders_insert_log l d : senders (insert_log l d) = senders d.
Proof. unfold insert_log. destruct (log_accepted l d); reflexivity. Qed.

Lemma getEmailById_insert_log l d i : getEmailById (insert_log l d) i = getEmailById d i.
Proof. unfold getEmailById. rewrite emails_insert_log. reflexivity. Qed.

Lemma set_processing_id t e : id (set_processing t e) = id e.
Proof. reflexivity. Qed.

Lemma set_sent_id t u e : id (set_sent t u e) = id e.
Proof. reflexivity. Qed.

Lemma set_error_id st msg t e : id (set_error st msg t e) = id e.
Proof. reflexivity. Qed.

Lemma find_map_job (g : Job -> Job) j l :
  (forall x, job_id (g x) = job_id x) ->
  find (has_job_id j) (map g l) = g <$> find (has_job_id j) l.
Proof.
  intros Hg. induction l as [|x l IH]; simpl; [reflexivity|].
  unfold has_job_id at 1. rewrite Hg. fold (has_job_id j x).
  destruct (has_job_id j x); [reflexivity|exact IH].
Qed.

Lemma settle_job_id env res x : job_id (settle env res x) = job_id x.
Proof.
  unfold settle. destruct res; [reflexivity|].
  destruct (S (attemptsMade x) <? attempts)%nat; reflexivity.
Qed.

Lemma getJob_has_job_id q j x : getJob q j = Some x -> has_job_id j x = true.
Proof. unfold getJob. intros H. apply find_some in H. tauto. Qed.

Lemma rate_limited_message_is_rate_limited st :
  is_rate_limited (rate_limited_message st) = true.
Proof. reflexivity. Qed.

(** ** The processor, branch by branch *)

Section WorkerFacts.
Variable MAX : Z.

Lemma processor_rate_limited env data w :
  allowed (checkRateLimit MAX env (redis w) (senderId data)) = false ->
  processor MAX env data w =
  catch_block env data
    (rate_limited_message (checkRateLimit MAX env (redis w) (senderId data))) w.
Proof. intros H. unfold processor. rewrite H. reflexivity. Qed.

Lemma processor_send_failed env data w sender msg :
  allowed (checkRateLimit MAX env (redis w) (senderId data)) = true ->
  getSenderById (db w) (senderId data) None = Some sender ->
  smtp env = inr msg ->
  processor MAX env data w =
  catch_block env data msg
    (with_mail (mail_options sender data)
       (with_db (update_emails (emailId data) (set_processing (clock env ProcessingUpdatedAt))) w)).
Proof.
  intros Ha Hs Hm. unfold processor. rewrite Ha. simpl.
  change (getSenderById
            (update_emails (emailId data)
               (set_processing (clock env ProcessingUpdatedAt)) (db w))
            (senderId data) None)
    with (getSenderById (db w) (senderId data) None).
  rewrite Hs, Hm. reflexivity.
Qed.

Lemma catch_block_failed env data msg w :
  is_rate_limited msg = false ->
  catch_block env data msg w =
  (with_db (fun d =>
      insert_log (mkEmailLog (emailId data) "FAILED" ("Send failed: " +:+ msg)
                    (clock env CatchAttemptedAt))
        (update_emails (emailId data) (set_error FAILED msg (clock env CatchUpdatedAt)) d)) w,
   inr msg).
Proof. intros H. unfold catch_block. rewrite H. reflexivity. Qed.

Lemma catch_block_rate_limited env data msg w :
  is_rate_limited msg = true ->
  catch_block env data msg w =
  (with_db (update_emails (emailId data)
              (set_error RETRYING msg (clock env CatchUpdatedAt))) w, inr msg).
Proof. intros H. unfold catch_block. rewrite H. reflexivity. Qed.

(** The queue after an attempt on job [j]. *)
Lemma runJob_queue env j x w :
  getJob (queue w) j = Some x -> eligible x = true ->
  getJob (queue (runJob MAX env j w)) j =
    settle env (snd (processor MAX env (job_data x) w)) <$>
      getJob (queue (fst (processor MAX env (job_data x) w))) j.
Proof.
  intros Hj He. unfold runJob. rewrite Hj, He.
  destruct (processor MAX env (job_data x) w) as [w' res]. simpl.
  unfold getJob. simpl.
  rewrite (find_map_job (fun y => if has_job_id j y then settle env res y else y)).
  - destruct (find (has_job_id j) (jobs (queue w'))) as [y|] eqn:Hf; [|reflexivity].
    simpl. apply find_some in Hf. destruct Hf as [_ Hy]. rewrite Hy. reflexivity.
  - intros y. destruct (has_job_id j y); [apply settle_job_id|reflexivity].
Qed.

Lemma runJob_world env j x w :
  getJob (queue w) j = Some x -> eligible x = true ->
  db (runJob MAX env j w) = db (fst (processor MAX env (job_data x) w)) /\
  redis (runJob MAX env j w) = redis (fst (processor MAX env (job_data x) w)) /\
  mail_calls (runJob MAX env j w) = mail_calls (fst (processor MAX env (job_data x) w)).
Proof.
  intros Hj He. unfold runJob. rewrite Hj, He.
  destruct (processor MAX env (job_data x) w) as [w' res]. simpl. auto.
Qed.

(** The processor never writes to the queue. *)
Lemma catch_block_queue env data msg w :
  queue (fst (catch_block env data msg w)) = queue w.
Proof. unfold catch_block. destruct (is_rate_limited msg); reflexivity. Qed.

Lemma processor_queue env data w :
  queue (fst (processor MAX env data w)) = queue w.
Proof.
  unfold processor.
  destruct (negb _); [apply catch_block_queue|].
  destruct (getSenderById _ _ _); [|rewrite catch_block_queue; reflexivity].
  destruct (smtp env); [|rewrite catch_block_queue; reflexivity].
  destruct (incrementRateLimit _ _ _) as [r [n|msg]]; [reflexivity|].
  rewrite catch_block_queue. reflexivity.
Qed.
End WorkerFacts.

(** ** Attempts whose delivery fails *)

Section FailedAttempt.
Variable MAX : Z.
Variables (env : Env) (j : JobId) (x : Job) (w : World) (sender : Sender) (msg : string).
Hypothesis Hjob : getJob (queue w) j = Some x.
Hypothesis Hel : eligible x = true.
Hypothesis Hallowed :
  allowed (checkRateLimit MAX env (redis w) (senderId (job_data x))) = true.
Hypothesis Hsender : getSenderById (db w) (senderId (job_data x)) None = Some sender.
Hypothesis Hsmtp : smtp env = inr msg.
Hypothesis Hmsg : is_rate_limited msg = false.

Lemma failed_attempt_row e :
  getEmailById (db w) (emailId (job_data x)) = Some e ->
  getEmailById (db (runJob MAX env j w)) (emailId (job_data x)) =
    Some (set_error FAILED msg (clock env CatchUpdatedAt)
            (set_processing (clock env ProcessingUpdatedAt) e)).
Proof.
  intros He.
  destruct (runJob_world MAX env j x w Hjob Hel) as [-> _].
  rewrite (processor_send_failed MAX env (job_data x) w sender msg Hallowed Hsender Hsmtp).
  rewrite (catch_block_failed env (job_data x) msg _ Hmsg). simpl.
  rewrite getEmailById_insert_log.
  apply getEmailById_update_same; [apply set_error_id|].
  apply getEmailById_update_same; [apply set_processing_id|exact He].
Qed.

Lemma failed_attempt_job :
  getJob (queue (runJob MAX env j w)) j = Some (settle env (inr msg) x).
Proof.
  rewrite (runJob_queue MAX env j x w Hjob Hel).
  rewrite processor_queue, Hjob.
  rewrite (processor_send_failed MAX env (job_data x) w sender msg Hallowed Hsender Hsmtp).
  rewrite (catch_block_failed env (job_data x) msg _ Hmsg). reflexivity.
Qed.

Lemma failed_attempt_mail :
  mail_calls (runJob MAX env j w) = (mail_calls w ++ [mail_options sender (job_data x)])%list.
Proof.
  destruct (runJob_world MAX env j x w Hjob Hel) as (_ & _ & ->).
  rewrite (processor_send_failed MAX env (job_data x) w sender msg Hallowed Hsender Hsmtp).
  rewrite (catch_block_failed env (job_data x) msg _ Hmsg). reflexivity.
Qed.
End FailedAttempt.

Lemma exponential_delay_pos n : 0 < 2 ^ Z.of_nat n * 2000.
Proof.
  assert (0 < 2 ^ Z.of_nat n) by (apply Z.pow_pos_nonneg; lia). lia.
Qed.

(** The queue's answer to a thrown error is the same for every error: the
    built-in exponential backoff of the job options, 2000 ms doubled with
    every failure.  The strategy of the worker's settings is not asked. *)
Lemma settle_failure env msg x :
  attemptsMade (settle env (inr msg) x) = S (attemptsMade x) /\
  job_state (settle env (inr msg) x) =
    if (S (attemptsMade x) <? attempts)%nat
    then Delayed (2 ^ Z.of_nat (attemptsMade x) * 2000)
    else JobFailed.
Proof.
  unfold settle.
  destruct (S (attemptsMade x) <? attempts)%nat; simpl; [|auto].
  split; [reflexivity|].
  unfold calculate_backoff, initial_state. simpl.
  pose proof (exponential_delay_pos (attemptsMade x)) as Hp.
  apply Z.ltb_lt in Hp. rewrite Hp. reflexivity.
Qed.

Lemma settle_job_data env res x : job_data (settle env res x) = job_data x.
Proof.
  unfold settle. destruct res; [reflexivity|].
  destruct (S (attemptsMade x) <? attempts)%nat; reflexivity.
Qed.

Lemma settle_eligible env msg x :
  eligible (settle env (inr msg) x) = (S (attemptsMade x) <? attempts)%nat.
Proof.
  destruct (settle_failure env msg x) as [_ Hstate].
  unfold eligible. rewrite Hstate.
  destruct (S (attemptsMade x) <? attempts)%nat; reflexivity.
Qed.

(** ** The jobs an attempt leaves in the queue *)

Lemma JobId_eqb_eq a b : JobId_eqb a b = true <-> a = b.
Proof.
  destruct a as [n|s], b as [m|t]; simpl; try (split; discriminate).
  - rewrite Nat.eqb_eq. split; [intros ->; reflexivity|intros H; injection H; auto].
  - rewrite String.eqb_eq. split; [intros ->; reflexivity|intros H; injection H; auto].
Qed.

Lemma unique_job_id (l : list Job) (x y : Job) :
  List.NoDup (map job_id l) -> In x l -> In y l -> job_id x = job_id y -> x = y.
Proof.
  induction l as [|a l IH]; simpl; intros Hnd Hx Hy E; [destruct Hx|].
  inversion Hnd as [|? ? Hn Hrest]; subst.
  destruct Hx as [->|Hx], Hy as [->|Hy]; auto.
  - exfalso. apply Hn. rewrite E. apply in_map. exact Hy.
  - exfalso. apply Hn. rewrite <- E. apply in_map. exact Hx.
Qed.

Lemma filter_nil_rewriting {A} (p : A -> bool) (g : A -> A) (l : list A) :
  (forall y, In y l -> p y = false -> g y = y) ->
  List.filter p l = [] -> List.filter p (map g l) = [].
Proof.
  induction l as [|b l IH]; simpl; intros Hg Hf; [reflexivity|].
  destruct (p b) eqn:Hpb; [discriminate Hf|].
  rewrite (Hg b (or_introl eq_refl) Hpb), Hpb.
  apply IH; [|exact Hf]. intros y Hy Hpy. apply Hg; auto.
Qed.

Lemma filter_after_rewriting_one {A} (p : A -> bool) (g : A -> A) (l : list A) (x : A) :
  (forall y, In y l -> p y = false -> g y = y) ->
  List.filter p l = [x] ->
  List.filter p (map g l) = if p (g x) then [g x] else [].
Proof.
  induction l as [|a l IH]; simpl; intros Hg Hf; [discriminate Hf|].
  destruct (p a) eqn:Hpa.
  - injection Hf as -> Hf.
    rewrite (filter_nil_rewriting p g l); [destruct (p (g x)); reflexivity| |exact Hf].
    intros y Hy Hpy. apply Hg; auto.
  - rewrite (Hg a (or_introl eq_refl) Hpa), Hpa.
    apply IH; [|exact Hf]. intros y Hy Hpy. apply Hg; auto.
Qed.

Section JobsAfterAnAttempt.
Variable MAX : Z.
Variables (env : Env) (j : JobId) (x : Job) (w : World).
Hypothesis Hjob : getJob (queue w) j = Some x.
Hypothesis Hel : eligible x = true.

Local Abbreviation res := (snd (processor MAX env (job_data x) w)).

Lemma runJob_jobs :
  jobs (queue (runJob MAX env j w)) =
    map (fun y => if has_job_id j y then settle env res y else y) (jobs (queue w)).
Proof.
  unfold runJob. rewrite Hjob, Hel.
  pose proof (processor_queue MAX env (job_data x) w) as Hq.
  destruct (processor MAX env (job_data x) w) as [w' r]. simpl in *.
  rewrite Hq. reflexivity.
Qed.

(** An attempt adds no job and removes none. *)
Lemma runJob_jobs_length :
  length (jobs (queue (runJob MAX env j w))) = length (jobs (queue w)).
Proof. rewrite runJob_jobs. apply length_map. Qed.

(** When the job attempted is the only pending job of its email, the only
    job of the email that can be pending afterwards is that job itself. *)
Lemma runJob_pending_jobs :
  List.NoDup (map job_id (jobs (queue w))) ->
  pending_jobs_for (emailId (job_data x)) (queue w) = [x] ->
  pending_jobs_for (emailId (job_data x)) (queue (runJob MAX env j w)) =
    if eligible (settle env res x) then [settle env res x] else [].
Proof.
  intros Hnd Hone. unfold pending_jobs_for in *. rewrite runJob_jobs.
  pose proof (getJob_has_job_id _ _ _ Hjob) as Hjx.
  assert (Hin : In x (jobs (queue w))).
  { unfold getJob in Hjob. apply find_some in Hjob. tauto. }
  rewrite (filter_after_rewriting_one _ _ _ x); [| |exact Hone].
  - rewrite Hjx, settle_job_data, String.eqb_refl, andb_true_r. reflexivity.
  - intros y Hy Hpy.
    destruct (has_job_id j y) eqn:Hjy; [|reflexivity].
    assert (y = x).
    { apply (unique_job_id (jobs (queue w))); try assumption.
      unfold has_job_id in *. apply JobId_eqb_eq in Hjx, Hjy. congruence. }
    subst y. rewrite Hel, String.eqb_refl in Hpy. discriminate Hpy.
Qed.
End JobsAfterAnAttempt.



(** For the two retries that 3 attempts allow, the delay the queue applies is
    the one the strategy of the worker's settings computes for an error that
    is not a rate-limit error. *)
Lemma queue_backoff_agrees_with_strategy z now n err :
  is_rate_limited err = false -> (1 <= n < attempts)%nat ->
  calculate_backoff defaultBackoff (backoffStrategy z now) n err = backoffStrategy z now n err.
Proof.
  intros Herr Hn. unfold attempts in Hn. unfold backoffStrategy. rewrite Herr.
  destruct n as [|[|[|n]]]; try lia; reflexivity.
Qed.

(** C2 (counterexample): the first attempt on Bob's email is refused for good
    by the SMTP server ("Invalid recipient"); the row is FAILED, yet the job
    is scheduled again and is pending for the email. *)
Lemma C2_counterexample :
  (status <$> getEmailById (db world_refused) "e1") = Some FAILED /\
  (job_state <$> getJob (queue world_refused) (AutoId 1)) = Some (Delayed 2000) /\
  pending_jobs_for "e1" (queue world_refused) <> [].
Proof. split; [vm_compute; reflexivity|]. split; [vm_compute; reflexivity|].
  vm_compute. discriminate. Qed.

(** C2 (amended): an attempt whose delivery fails with an error other than a
    rate-limit error persists FAILED with the error's message at once; the
    error is thrown on to the queue, which makes the attempt count and, while
    fewer than 3 attempts were made, schedules the job again after 2^n
    seconds (n the number of attempts made); at the third failure the job is
    moved to failed.  The attempt adds no job, so when the job was the only
    pending job of the email in a queue with unique job ids, the queue then
    holds no pending job for the email. *)
Theorem C2_failure_marks_FAILED_and_queue_retries_below_three :
  forall (MAX : Z) (env : Env) (j : JobId) (x : Job) (w : World)
         (sender : Sender) (msg : string) (e : Email),
    getJob (queue w) j = Some x -> eligible x = true ->
    allowed (checkRateLimit MAX env (redis w) (senderId (job_data x))) = true ->
    getSenderById (db w) (senderId (job_data x)) None = Some sender ->
    smtp env = inr msg -> is_rate_limited msg = false ->
    getEmailById (db w) (emailId (job_data x)) = Some e ->
    let w' := runJob MAX env j w in
    (exists e', getEmailById (db w') (emailId (job_data x)) = Some e' /\
                status e' = FAILED /\ error_message e' = Some msg) /\
    length (jobs (queue w')) = length (jobs (queue w)) /\
    (exists x', getJob (queue w') j = Some x' /\
                attemptsMade x' = S (attemptsMade x) /\
                job_state x' =
                  (if (S (attemptsMade x) <? attempts)%nat
                   then Delayed (2 ^ Z.of_nat (S (attemptsMade x)) * 1000)
                   else JobFailed) /\
                eligible x' = (S (attemptsMade x) <? attempts)%nat /\
                (List.NoDup (map job_id (jobs (queue w))) ->
                 pending_jobs_for (emailId (job_data x)) (queue w) = [x] ->
                 pending_jobs_for (emailId (job_data x)) (queue w') =
                   if (S (attemptsMade x) <? attempts)%nat then [x'] else [])).
Proof.
  intros MAX env j x w sender msg e Hj Hel Ha Hs Hm Hr He w'. subst w'. split.
  { eexists. split; [eapply failed_attempt_row; eassumption|]. split; reflexivity. }
  split; [apply (runJob_jobs_length MAX env j x w Hj Hel)|].
  eexists. split; [eapply failed_attempt_job; eassumption|].
  destruct (settle_failure env msg x) as [Hmade Hstate].
  split; [exact Hmade|]. split.
  { rewrite Hstate. destruct (S (attemptsMade x) <? attempts)%nat; [|reflexivity].
    f_equal. rewrite Nat2Z.inj_succ, Z.pow_succ_r by lia. lia. }
  split; [apply settle_eligible|].
  intros Hnd Hone.
  rewrite (runJob_pending_jobs MAX env j x w Hj Hel Hnd Hone).
  rewrite (processor_send_failed MAX env (job_data x) w sender msg Ha Hs Hm).
  rewrite (catch_block_failed env (job_data x) msg _ Hr). cbn [snd].
  rewrite settle_eligible. reflexivity.
Qed.

Lemma C2_witness :
  let w' := runJob 100 (env_at 5000 (inr "Invalid recipient") "e2") (AutoId 1) world_scheduled in
  (exists e', getEmailById (db w') "e1" = Some e' /\
              status e' = FAILED /\ error_message e' = Some "Invalid recipient") /\
  length (jobs (queue w')) = 1%nat /\
  (exists x', getJob (queue w') (AutoId 1) = Some x' /\
              attemptsMade x' = 1%nat /\
              job_state x' = Delayed 2000 /\
              eligible x' = true /\
              (List.NoDup [AutoId 1] ->
               pending_jobs_for "e1" (queue world_scheduled) = [bob_job (Delayed 4000) 0 None] ->
               pending_jobs_for "e1" (queue w') = [x'])).
Proof.
  apply (C2_failure_marks_FAILED_and_queue_retries_below_three 100
           (env_at 5000 (inr "Invalid recipient") "e2") (AutoId 1)
           (bob_job (Delayed 4000) 0 None) world_scheduled
           alice "Invalid recipient" (bob_row 5000));
    vm_compute; reflexivity.
Defined.

(** ** The persisted attempt count *)

Lemma counts_kept_refl d : counts_kept d d.
Proof. intros i. reflexivity. Qed.

Lemma counts_kept_trans d1 d2 d3 :
  counts_kept d1 d2 -> counts_kept d2 d3 -> counts_kept d1 d3.
Proof. intros H12 H23 i. rewrite H23. apply H12. Qed.

Lemma counts_kept_update i f d :
  (forall e, id (f e) = id e) ->
  (forall e, attempt_count (f e) = attempt_count e) ->
  counts_kept d (update_emails i f d).
Proof.
  intros Hid Hc k. rewrite getEmailById_update by assumption.
  destruct (getEmailById d k) as [e|]; simpl; [|reflexivity].
  unfold upd. destruct (has_id i e); [rewrite Hc|]; reflexivity.
Qed.

Lemma counts_kept_insert_log l d d' : counts_kept d d' -> counts_kept d (insert_log l d').
Proof. intros H i. rewrite getEmailById_insert_log. apply H. Qed.

Create HintDb counts.
#[local] Hint Resolve counts_kept_refl counts_kept_update counts_kept_insert_log
  set_processing_id set_sent_id set_error_id : counts.

Lemma catch_block_counts env data msg w :
  counts_kept (db w) (db (fst (catch_block env data msg w))).
Proof.
  unfold catch_block. destruct (is_rate_limited msg); simpl; auto with counts.
Qed.

Lemma processor_counts MAX env data w :
  counts_kept (db w) (db (fst (processor MAX env data w))).
Proof.
  assert (H1 : counts_kept (db w)
                 (update_emails (emailId data)
                    (set_processing (clock env ProcessingUpdatedAt)) (db w)))
    by auto with counts.
  unfold processor.
  destruct (negb _); [apply catch_block_counts|].
  destruct (getSenderById _ _ _) as [sender|];
    [|eapply counts_kept_trans; [exact H1|apply catch_block_counts]].
  destruct (smtp env) as [mid|msg];
    [|eapply counts_kept_trans; [exact H1|apply catch_block_counts]].
  assert (H2 : counts_kept (db w)
                 (insert_log
                    (mkEmailLog (emailId data) "SENT"
                       ("Email sent successfully. Message ID: " +:+ mid)
                   (clock env SentAttemptedAt))
                    (update_emails (emailId data)
                       (set_sent (clock env SentAt) (clock env SentUpdatedAt))
                       (update_emails (emailId data)
                          (set_processing (clock env ProcessingUpdatedAt)) (db w))))).
  { apply counts_kept_insert_log. eapply counts_kept_trans; [exact H1|]. auto with counts. }
  destruct (incrementRateLimit _ _ _) as [r [n|msg]]; [exact H2|].
  eapply counts_kept_trans; [exact H2|]. apply catch_block_counts.
Qed.

Lemma runJob_counts MAX env j w : counts_kept (db w) (db (runJob MAX env j w)).
Proof.
  unfold runJob. destruct (getJob (queue w) j) as [x|]; [|apply counts_kept_refl].
  destruct (eligible x); [|apply counts_kept_refl].
  pose proof (processor_counts MAX env (job_data x) w) as H.
  destruct (processor MAX env (job_data x) w) as [w' res]. exact H.
Qed.

Lemma run_attempts_counts MAX j envs :
  forall w, counts_kept (db w) (db (run_attempts MAX j envs w)).
Proof.
  induction envs as [|env envs IH]; intros w; simpl; [apply counts_kept_refl|].
  eapply counts_kept_trans; [apply runJob_counts|apply IH].
Qed.

(** C7 (counterexample): the first attempt on Bob's email times out, a
    transient failure; the row is persisted FAILED, not RETRYING, and its
    attempt count is still 0, not 1.  After a second timeout it is still 0,
    not 2. *)
Lemma C7_counterexample :
  smtp (env_at 5000 (inr "Connection timeout") "e2") = inr "Connection timeout" /\
  (attempt_count <$> getEmailById (db world_scheduled) "e1") = Some 0 /\
  (status <$> getEmailById (db world_timed_out) "e1") = Some FAILED /\
  (attempt_count <$> getEmailById (db world_timed_out) "e1") = Some 0 /\
  (status <$> getEmailById (db world_timed_out) "e1") <> Some RETRYING /\
  (attempt_count <$> getEmailById (db world_timed_out) "e1") <> Some (0 + 1) /\
  (attempt_count <$>
     getEmailById
       (db (runJob 100 (env_at 9000 (inr "Connection timeout") "e2") (AutoId 1)
              world_timed_out)) "e1") = Some 0.
Proof. vm_compute. repeat split; discriminate. Qed.

(** C7 (amended): an attempt whose delivery fails with an error other than a
    rate-limit error persists FAILED on the row, with the error's message,
    and leaves its attempt count as it was; over any sequence of attempts
    the persisted attempt count of every row stays what it was, so it never
    decreases. *)
Theorem C7_failed_attempt_persists_FAILED_and_keeps_attempt_count :
  forall (MAX : Z) (env : Env) (j : JobId) (x : Job) (w : World)
         (sender : Sender) (msg : string) (e : Email),
    getJob (queue w) j = Some x -> eligible x = true ->
    allowed (checkRateLimit MAX env (redis w) (senderId (job_data x))) = true ->
    getSenderById (db w) (senderId (job_data x)) None = Some sender ->
    smtp env = inr msg -> is_rate_limited msg = false ->
    getEmailById (db w) (emailId (job_data x)) = Some e ->
    (exists e', getEmailById (db (runJob MAX env j w)) (emailId (job_data x)) = Some e' /\
                status e' = FAILED /\ error_message e' = Some msg /\
                attempt_count e' = attempt_count e) /\
    (forall (envs : list Env) (i : string),
        attempt_count <$> getEmailById (db (run_attempts MAX j envs w)) i =
        attempt_count <$> getEmailById (db w) i).
Proof.
  intros MAX env j x w sender msg e Hj Hel Ha Hs Hm Hr He. split.
  - eexists. split; [eapply failed_attempt_row; eassumption|]. repeat split; reflexivity.
  - intros envs i. apply run_attempts_counts.
Qed.

Lemma C7_witness :
  (exists e', getEmailById (db world_timed_out) "e1" = Some e' /\
              status e' = FAILED /\ error_message e' = Some "Connection timeout" /\
              attempt_count e' = 0) /\
  (forall (envs : list Env) (i : string),
      attempt_count <$> getEmailById (db (run_attempts 100 (AutoId 1) envs world_scheduled)) i =
      attempt_count <$> getEmailById (db world_scheduled) i).
Proof.
  apply (C7_failed_attempt_persists_FAILED_and_keeps_attempt_count 100
           (env_at 5000 (inr "Connection timeout") "e2") (AutoId 1)
           (bob_job (Delayed 4000) 0 None) world_scheduled
           alice "Connection timeout" (bob_row 5000));
    vm_compute; reflexivity.
Defined.

(** ** Attempts that find the sender's hour full *)

Lemma checkRateLimit_full MAX env r sender :
  redis_get_ok env = true ->
  MAX <= default 0 (r !! rate_key (zone env) sender (now env)) ->
  allowed (checkRateLimit MAX env r sender) = false.
Proof.
  intros Hok Hfull. unfold checkRateLimit. rewrite Hok. simpl.
  apply Z.ltb_ge. exact Hfull.
Qed.

(** The first half of fail-open: a Redis error on the read admits the email. *)
Lemma checkRateLimit_fails_open MAX env r sender :
  redis_get_ok env = false ->
  allowed (checkRateLimit MAX env r sender) = true.
Proof. intros Hko. unfold checkRateLimit. rewrite Hko. reflexivity. Qed.

Section RateLimitedAttempt.
Variable MAX : Z.
Variables (env : Env) (j : JobId) (x : Job) (w : World).
Hypothesis Hjob : getJob (queue w) j = Some x.
Hypothesis Hel : eligible x = true.
Hypothesis Hfull :
  allowed (checkRateLimit MAX env (redis w) (senderId (job_data x))) = false.

Local Abbreviation msg :=
  (rate_limited_message (checkRateLimit MAX env (redis w) (senderId (job_data x)))).

Lemma rate_limited_attempt_world :
  fst (processor MAX env (job_data x) w) =
    with_db (update_emails (emailId (job_data x))
               (set_error RETRYING msg (clock env CatchUpdatedAt))) w /\
  snd (processor MAX env (job_data x) w) = inr msg.
Proof.
  rewrite (processor_rate_limited MAX env (job_data x) w Hfull).
  rewrite catch_block_rate_limited by apply rate_limited_message_is_rate_limited.
  split; reflexivity.
Qed.

Lemma rate_limited_attempt_mail : mail_calls (runJob MAX env j w) = mail_calls w.
Proof.
  destruct (runJob_world MAX env j x w Hjob Hel) as (_ & _ & ->).
  destruct rate_limited_attempt_world as [-> _]. reflexivity.
Qed.

Lemma rate_limited_attempt_row e :
  getEmailById (db w) (emailId (job_data x)) = Some e ->
  getEmailById (db (runJob MAX env j w)) (emailId (job_data x)) =
    Some (set_error RETRYING msg (clock env CatchUpdatedAt) e).
Proof.
  intros He.
  destruct (runJob_world MAX env j x w Hjob Hel) as [-> _].
  destruct rate_limited_attempt_world as [-> _]. simpl.
  apply getEmailById_update_same; [apply set_error_id|exact He].
Qed.

Lemma rate_limited_attempt_job :
  getJob (queue (runJob MAX env j w)) j = Some (settle env (inr msg) x).
Proof.
  rewrite (runJob_queue MAX env j x w Hjob Hel).
  rewrite processor_queue, Hjob.
  destruct rate_limited_attempt_world as [_ ->]. reflexivity.
Qed.
End RateLimitedAttempt.

(** C6: an attempt that finds the sender's hourly counter at or above the
    limit throws the RATE_LIMITED error without calling the mail transport
    and persists RETRYING with that error, the attempt count of the row left
    as it was.  The queue treats the error as any other: the throw counts as
    one of the job's 3 attempts, the job is retried after the built-in
    exponential backoff of the job options (2 s, then 4 s), and it is moved
    to failed at the third attempt.  The time left until the next hour, which
    the worker's [backoffStrategy] computes for the error, is not the delay
    the job gets. *)
Theorem C6_rate_limited_job_is_retried_within_seconds_and_uses_an_attempt :
  forall (MAX : Z) (env : Env) (j : JobId) (x : Job) (w : World) (e : Email),
    getJob (queue w) j = Some x -> eligible x = true ->
    redis_get_ok env = true ->
    MAX <= default 0 (redis w !! rate_key (zone env) (senderId (job_data x)) (now env)) ->
    getEmailById (db w) (emailId (job_data x)) = Some e ->
    let w' := runJob MAX env j w in
    let err := rate_limited_message
                 (checkRateLimit MAX env (redis w) (senderId (job_data x))) in
    mail_calls w' = mail_calls w /\
    (exists e', getEmailById (db w') (emailId (job_data x)) = Some e' /\
                status e' = RETRYING /\ attempt_count e' = attempt_count e /\
                error_message e' = Some err) /\
    is_rate_limited err = true /\
    backoffStrategy (zone env) (clock env BackoffNow) (S (attemptsMade x)) err =
      getNextHourTimestamp (zone env) (clock env BackoffNow) - clock env BackoffNow /\
    (exists x', getJob (queue w') j = Some x' /\
                attemptsMade x' = S (attemptsMade x) /\
                job_state x' =
                  (if (S (attemptsMade x) <? attempts)%nat
                   then Delayed (2 ^ Z.of_nat (attemptsMade x) * 2000)
                   else JobFailed)).
Proof.
  intros MAX env j x w e Hj Hel Hok Hfull He w' err. subst w' err.
  pose proof (checkRateLimit_full MAX env (redis w) _ Hok Hfull) as Hna.
  split; [eapply rate_limited_attempt_mail; eassumption|].
  split.
  { eexists. split; [eapply rate_limited_attempt_row; eassumption|].
    repeat split; reflexivity. }
  split; [apply rate_limited_message_is_rate_limited|].
  split.
  { unfold backoffStrategy. rewrite rate_limited_message_is_rate_limited. reflexivity. }
  eexists. split; [eapply rate_limited_attempt_job; eassumption|].
  apply settle_failure.
Qed.

Lemma C6_witness :
  let env := env_at 3601000 (inl "m1") "e2" in
  let w' := runJob 100 env (AutoId 1) world_busy in
  let err := rate_limited_message (checkRateLimit 100 env (redis world_busy) "s1") in
  mail_calls w' = mail_calls world_busy /\
  (exists e', getEmailById (db w') "e1" = Some e' /\
              status e' = RETRYING /\ attempt_count e' = 0 /\
              error_message e' = Some err) /\
  is_rate_limited err = true /\
  backoffStrategy utc 3603000 1 err = 7200000 - 3603000 /\
  (exists x', getJob (queue w') (AutoId 1) = Some x' /\
              attemptsMade x' = 1%nat /\
              job_state x' = Delayed 2000).
Proof.
  apply (C6_rate_limited_job_is_retried_within_seconds_and_uses_an_attempt 100
           (env_at 3601000 (inl "m1") "e2") (AutoId 1)
           (bob_job (Delayed 3594000) 0 None) world_busy (bob_row 3595000));
    try (vm_compute; reflexivity).
  vm_compute. discriminate.
Defined.

(** When the job has failed twice before, the rate-limited attempt is its
    last: the job is moved to failed and nothing is left pending for the
    email. *)
Lemma rate_limited_third_attempt_fails_the_job :
  allowed (checkRateLimit 100 (env_at 3605000 (inl "m1") "e2")
             (redis world_busy_twice_failed) "s1") = false /\
  (attemptsMade <$> getJob (queue world_busy_twice_failed) (AutoId 1)) = Some 2%nat /\
  mail_calls world_busy_third = mail_calls world_busy_twice_failed /\
  (attemptsMade <$> getJob (queue world_busy_third) (AutoId 1)) = Some 3%nat /\
  (job_state <$> getJob (queue world_busy_third) (AutoId 1)) = Some JobFailed /\
  pending_jobs_for "e1" (queue world_busy_third) = [].
Proof. vm_compute. repeat split; reflexivity. Qed.

(** ** Cancellation *)

Lemma getEmailById_deleteEmail i d : getEmailById (deleteEmail i d) i = None.
Proof.
  unfold getEmailById, deleteEmail. simpl.
  assert (H : List.filter (has_id i) (List.filter (fun e => negb (has_id i e)) (emails d)) = []).
  { induction (emails d) as [|e l IH]; simpl; [reflexivity|].
    destruct (has_id i e) eqn:E; simpl; [exact IH|]. rewrite E. exact IH. }
  rewrite H. reflexivity.
Qed.

Lemma existsb_filter_negb {A} (p : A -> bool) (l : list A) :
  existsb p (List.filter (fun a => negb (p a)) l) = false.
Proof.
  induction l as [|a l IH]; simpl; [reflexivity|].
  destruct (p a) eqn:E; simpl; [exact IH|]. rewrite E. exact IH.
Qed.

(** The log entry of a cancellation refers to the row that has just been
    deleted, so the foreign key of [email_logs] refuses it. *)
Lemma createEmailLog_after_deleteEmail t i st msg d :
  exists err, createEmailLog t i st msg (deleteEmail i d) = inr err.
Proof.
  unfold createEmailLog, log_accepted, deleteEmail. simpl.
  rewrite existsb_filter_negb. eexists. reflexivity.
Qed.

(** The cancel request of the owner: the row is deleted, the log entry is
    refused, and the [catch] answers 500. *)
Lemma cancelEmailController_owner env userId i w em owner :
  getEmailById (db w) i = Some em ->
  getSenderById (db w) (sender_id em) (Some userId) = Some owner ->
  cancelEmailController env userId i w =
    (with_db (deleteEmail i) w, mkResponse 500 "Failed to cancel email" None).
Proof.
  intros Hem Hown. unfold cancelEmailController. rewrite Hem, Hown.
  destruct (createEmailLog_after_deleteEmail (now env) i "CANCELLED" "Email cancelled" (db w))
    as [err Herr].
  simpl. rewrite Herr. reflexivity.
Qed.

Lemma catch_block_mail env data msg w :
  mail_calls (fst (catch_block env data msg w)) = mail_calls w.
Proof. unfold catch_block. destruct (is_rate_limited msg); reflexivity. Qed.

(** Once the sender is admitted and found, the transport is called, whatever
    table [emails] holds. *)
Lemma processor_mail MAX env data w sender :
  allowed (checkRateLimit MAX env (redis w) (senderId data)) = true ->
  getSenderById (db w) (senderId data) None = Some sender ->
  mail_calls (fst (processor MAX env data w)) =
    (mail_calls w ++ [mail_options sender data])%list.
Proof.
  intros Ha Hs. unfold processor. rewrite Ha. simpl.
  change (getSenderById
            (update_emails (emailId data)
               (set_processing (clock env ProcessingUpdatedAt)) (db w))
            (senderId data) None)
    with (getSenderById (db w) (senderId data) None).
  rewrite Hs.
  destruct (smtp env) as [mid|msg]; [|rewrite catch_block_mail; reflexivity].
  destruct (incrementRateLimit _ _ _) as [r [n|msg]]; [reflexivity|].
  rewrite catch_block_mail. reflexivity.
Qed.

(** C1: the worker never reads the row before it delivers.  When the owner
    of an email cancels it, the row is deleted but its job stays in the
    queue, and the attempt made when the job becomes eligible hands the
    email to the mail transport. *)
Theorem C1_cancelled_email_is_still_delivered :
  forall (MAX : Z) (envc env : Env) (userId i : string) (j : JobId) (x : Job)
         (w : World) (em : Email) (owner sender : Sender),
    getEmailById (db w) i = Some em ->
    getSenderById (db w) (sender_id em) (Some userId) = Some owner ->
    getJob (queue w) j = Some x -> eligible x = true -> emailId (job_data x) = i ->
    allowed (checkRateLimit MAX env (redis w) (senderId (job_data x))) = true ->
    getSenderById (db w) (senderId (job_data x)) None = Some sender ->
    let w1 := fst (cancelEmailController envc userId i w) in
    getEmailById (db w1) i = None /\
    getJob (queue w1) j = Some x /\
    mail_calls (runJob MAX env j w1) =
      (mail_calls w1 ++ [mail_options sender (job_data x)])%list.
Proof.
  intros MAX envc env userId i j x w em owner sender Hem Hown Hj Hel Hi Ha Hs w1.
  assert (Hw1 : w1 = with_db (deleteEmail i) w).
  { subst w1. rewrite (cancelEmailController_owner envc userId i w em owner Hem Hown).
    reflexivity. }
  rewrite Hw1.
  split; [apply getEmailById_deleteEmail|].
  split; [exact Hj|].
  match goal with |- mail_calls (runJob _ _ _ ?u) = _ => set (wc := u) end.
  destruct (runJob_world MAX env j x wc Hj Hel) as (_ & _ & ->).
  apply processor_mail; assumption.
Qed.

Lemma C1_witness :
  getEmailById (db world_cancelled) "e1" = None /\
  getJob (queue world_cancelled) (AutoId 1) = Some (bob_job (Delayed 4000) 0 None) /\
  mail_calls (runJob 100 (env_at 5000 (inl "m1") "e2") (AutoId 1) world_cancelled) =
    ([] ++ [mail_options alice bob_data])%list.
Proof.
  apply (C1_cancelled_email_is_still_delivered 100
           (env_at 2000 (inl "m0") "e2") (env_at 5000 (inl "m1") "e2") "u1" "e1" (AutoId 1)
           (bob_job (Delayed 4000) 0 None) world_scheduled (bob_row 5000) alice alice);
    vm_compute; reflexivity.
Defined.

(** ** A Redis error after the delivery *)

Lemma incrementRateLimit_throws env r sender :
  redis_incr_ok env && redis_expire_ok env = false ->
  snd (incrementRateLimit env r sender) = inr (redis_error env).
Proof.
  unfold incrementRateLimit. intros H.
  destruct (redis_incr_ok env); [|reflexivity].
  destruct (redis_expire_ok env); [discriminate H|reflexivity].
Qed.

Section IncrementFails.
Variable MAX : Z.
Variables (env : Env) (j : JobId) (x : Job) (w : World) (sender : Sender) (mid : string).
Hypothesis Hjob : getJob (queue w) j = Some x.
Hypothesis Hel : eligible x = true.
Hypothesis Hallowed :
  allowed (checkRateLimit MAX env (redis w) (senderId (job_data x))) = true.
Hypothesis Hsender : getSenderById (db w) (senderId (job_data x)) None = Some sender.
Hypothesis Hsmtp : smtp env = inl mid.
Hypothesis Hredis : redis_incr_ok env && redis_expire_ok env = false.
Hypothesis Herr : is_rate_limited (redis_error env) = false.

Local Abbreviation data := (job_data x).

Lemma processor_incr_failed :
  processor MAX env data w =
  catch_block env data (redis_error env)
    (with_redis (fst (incrementRateLimit (at_time (clock env IncrementWindow) env)
                        (redis w) (senderId data)))
       (with_db (insert_log (mkEmailLog (emailId data) "SENT"
                   ("Email sent successfully. Message ID: " +:+ mid)
                   (clock env SentAttemptedAt)))
          (with_db (update_emails (emailId data)
                      (set_sent (clock env SentAt) (clock env SentUpdatedAt)))
             (with_mail (mail_options sender data)
                (with_db (update_emails (emailId data)
                            (set_processing (clock env ProcessingUpdatedAt))) w))))).
Proof.
  unfold processor. rewrite Hallowed. simpl.
  change (getSenderById
            (update_emails (emailId (job_data x))
               (set_processing (clock env ProcessingUpdatedAt)) (db w))
            (senderId (job_data x)) None)
    with (getSenderById (db w) (senderId (job_data x)) None).
  rewrite Hsender, Hsmtp.
  pose proof (incrementRateLimit_throws (at_time (clock env IncrementWindow) env) (redis w)
                (senderId (job_data x)) Hredis) as Hi.
  destruct (incrementRateLimit (at_time (clock env IncrementWindow) env) (redis w)
              (senderId (job_data x))) as [r res].
  simpl in Hi. subst res. reflexivity.
Qed.

Lemma incr_failed_row e :
  getEmailById (db w) (emailId data) = Some e ->
  getEmailById (db (runJob MAX env j w)) (emailId data) =
    Some (set_error FAILED (redis_error env) (clock env CatchUpdatedAt)
            (set_sent (clock env SentAt) (clock env SentUpdatedAt)
               (set_processing (clock env ProcessingUpdatedAt) e))).
Proof.
  intros He.
  destruct (runJob_world MAX env j x w Hjob Hel) as [-> _].
  rewrite processor_incr_failed.
  rewrite (catch_block_failed env data _ _ Herr). simpl.
  rewrite getEmailById_insert_log.
  apply getEmailById_update_same; [apply set_error_id|].
  rewrite getEmailById_insert_log.
  apply getEmailById_update_same; [apply set_sent_id|].
  apply getEmailById_update_same; [apply set_processing_id|exact He].
Qed.

Lemma incr_failed_job :
  getJob (queue (runJob MAX env j w)) j = Some (settle env (inr (redis_error env)) x).
Proof.
  rewrite (runJob_queue MAX env j x w Hjob Hel).
  rewrite processor_queue, Hjob. rewrite processor_incr_failed.
  rewrite (catch_block_failed env data _ _ Herr). reflexivity.
Qed.
End IncrementFails.

(** C3: [checkRateLimit] fails open, but [incrementRateLimit] rethrows.  When
    the delivery has succeeded and the increment then fails, the processor's
    [catch] block overwrites SENT with FAILED and throws on: the email that
    was delivered is recorded as failed and, while fewer than 3 attempts were
    made, its job is scheduled to be sent again. *)
Theorem C3_increment_failure_marks_delivered_email_FAILED :
  forall (MAX : Z) (env : Env) (j : JobId) (x : Job) (w : World)
         (sender : Sender) (mid : string) (e : Email),
    getJob (queue w) j = Some x -> eligible x = true ->
    allowed (checkRateLimit MAX env (redis w) (senderId (job_data x))) = true ->
    getSenderById (db w) (senderId (job_data x)) None = Some sender ->
    smtp env = inl mid ->
    redis_incr_ok env && redis_expire_ok env = false ->
    is_rate_limited (redis_error env) = false ->
    getEmailById (db w) (emailId (job_data x)) = Some e ->
    let w' := runJob MAX env j w in
    mail_calls w' = (mail_calls w ++ [mail_options sender (job_data x)])%list /\
    (exists e', getEmailById (db w') (emailId (job_data x)) = Some e' /\
                status e' = FAILED /\ sent_at e' = Some (clock env SentAt) /\
                error_message e' = Some (redis_error env)) /\
    (exists x', getJob (queue w') j = Some x' /\
                attemptsMade x' = S (attemptsMade x) /\
                eligible x' = (S (attemptsMade x) <? attempts)%nat).
Proof.
  intros MAX env j x w sender mid e Hj Hel Ha Hs Hm Hr Herr He w'. subst w'.
  split.
  { destruct (runJob_world MAX env j x w Hj Hel) as (_ & _ & ->).
    apply processor_mail; assumption. }
  split.
  { eexists. split; [eapply incr_failed_row; eassumption|]. repeat split; reflexivity. }
  eexists. split; [eapply incr_failed_job; eassumption|].
  destruct (settle_failure env (redis_error env) x) as [Hmade _].
  split; [exact Hmade|apply settle_eligible].
Qed.

Lemma C3_witness :
  mail_calls world_delivered_redis_down = ([] ++ [mail_options alice bob_data])%list /\
  (exists e', getEmailById (db world_delivered_redis_down) "e1" = Some e' /\
              status e' = FAILED /\ sent_at e' = Some 7000 /\
              error_message e' = Some "Connection is closed.") /\
  (exists x', getJob (queue world_delivered_redis_down) (AutoId 1) = Some x' /\
              attemptsMade x' = 1%nat /\
              eligible x' = true).
Proof.
  apply (C3_increment_failure_marks_delivered_email_FAILED 100 env_redis_down (AutoId 1)
           (bob_job (Delayed 4000) 0 None) world_scheduled alice "m1" (bob_row 5000));
    vm_compute; reflexivity.
Defined.

(** ** Restart recovery *)

(** C4: the loader's query keeps only rows with [scheduled_at >= now].  When
    every pending row is already overdue at that instant, recovery leaves the
    world as it found it: no pending row is enqueued and none is marked
    FAILED. *)
Theorem C4_recovery_leaves_overdue_emails_untouched :
  forall (tq : Z) (env : Env) (w : World),
    (forall e, In e (emails (db w)) -> is_pending e = true -> scheduled_at e < tq) ->
    requeuePendingEmails tq env w = w.
Proof.
  intros tq env w H. unfold requeuePendingEmails, pending_query.
  destruct (db_ok env); [|reflexivity].
  assert (E : List.filter (fun e => is_pending e && (tq <=? scheduled_at e)) (emails (db w)) = []).
  { induction (emails (db w)) as [|e l IH]; simpl; [reflexivity|].
    destruct (is_pending e) eqn:Hp; simpl.
    - assert (Hlt : scheduled_at e < tq) by (apply H; [left; reflexivity|exact Hp]).
      apply Z.leb_gt in Hlt. rewrite Hlt. apply IH. intros e' Hin. apply H. right. exact Hin.
    - apply IH. intros e' Hin. apply H. right. exact Hin. }
  rewrite E. reflexivity.
Qed.

Lemma C4_witness :
  world_restarted_late = world_unqueued /\
  (status <$> getEmailById (db world_restarted_late) "e1") = Some SCHEDULED /\
  jobs (queue world_restarted_late) = [].
Proof.
  split.
  - apply (C4_recovery_leaves_overdue_emails_untouched 6000
             (env_at 6000 (inl "m1") "e2") world_unqueued).
    intros e Hin _. vm_compute in Hin. destruct Hin as [<-|[]]. simpl. lia.
  - vm_compute. split; reflexivity.
Defined.

(** C5: for an email without idempotency key the submission passes no job id,
    so the queue numbers the job itself, while recovery passes the email's id:
    recovery run while the first job is still queued adds a second job for
    the same email. *)
Theorem C5_recovery_duplicates_job_of_email_without_key :
  map job_id (jobs (queue world_scheduled)) = [AutoId 1] /\
  map job_id (pending_jobs_for "e1" (queue world_recovered_early)) =
    [AutoId 1; CustomId "e1"].
Proof. vm_compute. split; reflexivity. Qed.

(** With a key both paths name the job by the key, and recovery adds nothing. *)
Lemma recovery_with_key_adds_nothing :
  map job_id (jobs (queue (fst first_call_k1))) = [CustomId "k1"] /\
  queue (requeuePendingEmails 2000 (env_at 2000 (inl "m1") "e2") (fst first_call_k1)) =
    queue (fst first_call_k1).
Proof. vm_compute. split; reflexivity. Qed.

(** ** Creation *)

Lemma filter_existsb_false {A} (p : A -> bool) (l : list A) :
  existsb p l = false -> List.filter p l = [].
Proof.
  induction l as [|a l IH]; simpl; [reflexivity|].
  destruct (p a); simpl; [discriminate|exact IH].
Qed.

Lemma single_filter_length {A} (p : A -> bool) (l : list A) (a : A) :
  single (List.filter p l) = Some a -> List.filter p l = [a].
Proof.
  destruct (List.filter p l) as [|b [|c l']]; try discriminate.
  intros H. injection H as ->. reflexivity.
Qed.

Lemma truthy_nonempty k : k <> EmptyString -> truthy (Some k) = true.
Proof.
  intros H. unfold truthy. apply String.eqb_neq in H. rewrite H. reflexivity.
Qed.

(** What a successful [createEmail] has done. *)
Lemma createEmail_inl t fresh data d d' e :
  createEmail t fresh data d = inl (d', e) ->
  emails d' = (emails d ++ [e])%list /\ senders d' = senders d /\
  id e = fresh /\ status e = SCHEDULED /\ attempt_count e = 0 /\
  idempotency_key e = or_else (c_idempotencyKey data) None /\
  scheduled_at e = c_scheduledAt data /\
  insert_conflicts e d = false.
Proof.
  unfold createEmail. intros H.
  destruct (negb (sender_exists (c_senderId data) d)); [discriminate|].
  match type of H with (if ?c then _ else _) = _ => destruct c eqn:Hc end;
    [discriminate|].
  injection H as <- <-. simpl. repeat split; try reflexivity. exact Hc.
Qed.


(** The log entry of a submission refers to the row that has just been
    inserted, so the foreign key of [email_logs] accepts it. *)
Lemma createEmailLog_after_createEmail t fresh data d d' e t' st msg :
  createEmail t fresh data d = inl (d', e) ->
  createEmailLog t' (id e) st msg d' =
    inl (mkDb (emails d') (senders d') (email_logs d' ++ [mkEmailLog (id e) st msg t'])).
Proof.
  intros Hc. destruct (createEmail_inl _ _ _ _ _ _ Hc) as (He & _).
  assert (Hacc : log_accepted (mkEmailLog (id e) st msg t') d' = true).
  { unfold log_accepted. simpl. rewrite He, existsb_app. simpl.
    unfold has_id at 2. rewrite String.eqb_refl. apply orb_true_iff. right. reflexivity. }
  unfold createEmailLog, insert_log. rewrite Hacc. reflexivity.
Qed.

Lemma createEmail_key_lookup t fresh data d d' e k :
  createEmail t fresh data d = inl (d', e) ->
  c_idempotencyKey data = Some k -> k <> EmptyString ->
  getEmailByIdempotencyKey d k = None /\
  List.filter (has_key k) (emails d') = [e].
Proof.
  intros Hc Hk Hne.
  destruct (createEmail_inl _ _ _ _ _ _ Hc) as (He & _ & _ & _ & _ & Hkey & _ & Hconf).
  rewrite Hk in Hkey. unfold or_else in Hkey. rewrite (truthy_nonempty k Hne) in Hkey.
  unfold insert_conflicts in Hconf. rewrite Hkey in Hconf.
  apply orb_false_iff in Hconf. destruct Hconf as [_ Hex].
  apply filter_existsb_false in Hex.
  split.
  - unfold getEmailByIdempotencyKey. rewrite Hex. reflexivity.
  - rewrite He, List.filter_app, Hex. simpl.
    unfold has_key. rewrite Hkey, String.eqb_refl. reflexivity.
Qed.

Lemma schedule_finds_no_existing_email t fresh data d d' e :
  createEmail t fresh data d = inl (d', e) ->
  match c_idempotencyKey data with
  | Some k => if truthy (Some k) then getEmailByIdempotencyKey d k else None
  | None => None
  end = None.
Proof.
  intros Hc. destruct (c_idempotencyKey data) as [k|] eqn:Hk; [|reflexivity].
  destruct (truthy (Some k)) eqn:Ht; [|reflexivity].
  assert (Hne : k <> EmptyString) by (intros ->; discriminate Ht).
  apply (createEmail_key_lookup _ _ _ _ _ _ k Hc Hk Hne).
Qed.

(** The entrypoint when the sender is the caller's and the row is inserted:
    whether or not the queue takes the job, the log entry is written and the
    answer is 201. *)
Lemma scheduleEmailController_created env userId data w sender d e :
  getSenderById (db w) (c_senderId data) (Some userId) = Some sender ->
  createEmail (now env) (fresh_id env) data (db w) = inl (d, e) ->
  scheduleEmailController env userId data w =
    (mkWorld
       (mkDb (emails d) (senders d)
          (email_logs d ++
           [mkEmailLog (id e) "SCHEDULED" "Email scheduled successfully" (now env)]))
       (redis w)
       (fst (addEmailToQueue env (job_data_of e) (scheduled_at e)
               (or_else (idempotency_key e) None) (queue w)))
       (mail_calls w),
     mkResponse 201 "Email scheduled successfully" (Some e)).
Proof.
  intros Hs Hc. unfold scheduleEmailController.
  rewrite Hs, (schedule_finds_no_existing_email _ _ _ _ _ _ Hc), Hc.
  destruct (addEmailToQueue env (job_data_of e) (scheduled_at e)
              (or_else (idempotency_key e) None) (queue (with_db (fun _ => d) w)))
    as [q res] eqn:Hq.
  simpl in Hq. rewrite Hq. simpl.
  rewrite (createEmailLog_after_createEmail _ _ _ _ _ _ (now env) "SCHEDULED"
             "Email scheduled successfully" Hc).
  reflexivity.
Qed.




(** ** Submission while the queue is down, and the recovery that follows *)

Lemma In_insert_by x e l :
  In x (insert_by_scheduled_at e l) <-> x = e \/ In x l.
Proof.
  induction l as [|y l IH]; simpl; [intuition|].
  destruct (scheduled_at e <=? scheduled_at y); simpl; [intuition|].
  rewrite IH. intuition.
Qed.

Lemma In_order_by x l : In x (order_by_scheduled_at l) <-> In x l.
Proof.
  induction l as [|y l IH]; simpl; [reflexivity|].
  rewrite In_insert_by, IH. intuition.
Qed.

Lemma In_pending_query x tq d :
  In x (pending_query tq d) <->
  In x (emails d) /\ is_pending x = true /\ tq <= scheduled_at x.
Proof.
  unfold pending_query. rewrite In_order_by, filter_In, andb_true_iff, Z.leb_le.
  reflexivity.
Qed.

Lemma find_snoc {A} (p : A -> bool) (l : list A) (a : A) :
  find p (l ++ [a]) =
  match find p l with
  | Some y => Some y
  | None => if p a then Some a else None
  end.
Proof.
  induction l as [|b l IH]; simpl; [reflexivity|].
  destruct (p b); [reflexivity|exact IH].
Qed.

Lemma find_None_existsb {A} (p : A -> bool) (l : list A) :
  find p l = None -> existsb p l = false.
Proof.
  induction l as [|b l IH]; simpl; [reflexivity|].
  destruct (p b); [discriminate|exact IH].
Qed.

(** [add] never removes or rewrites a job. *)
Lemma queue_add_keeps data delay jobId q j x :
  getJob q j = Some x ->
  getJob (fst (queue_add data delay jobId q)) j = Some x.
Proof.
  unfold queue_add, getJob. intros H.
  destruct (if truthy jobId then jobId else None) as [s|].
  - destruct (existsb _ _); simpl; [exact H|]. rewrite find_snoc, H. reflexivity.
  - simpl. rewrite find_snoc, H. reflexivity.
Qed.


Lemma queue_add_new data delay J q :
  getJob q (CustomId J) = None -> J <> EmptyString ->
  getJob (fst (queue_add data delay (Some J) q)) (CustomId J) =
    Some (mkJob (CustomId J) data (initial_state delay) 0 None).
Proof.
  unfold queue_add, getJob. intros H Hne.
  rewrite (truthy_nonempty J Hne), (find_None_existsb _ _ H). simpl.
  rewrite find_snoc, H. unfold has_job_id. simpl. rewrite String.eqb_refl. reflexivity.
Qed.

Section RecoveryPass.
Variables (env : Env) (e : Email) (J : string).
Hypothesis Hqueue : queue_ok env = true.
Hypothesis Hdue : now env <= scheduled_at e.
Hypothesis HJ : recovery_job_id e = Some J.
Hypothesis HJne : J <> EmptyString.

Local Abbreviation job_e :=
  (mkJob (CustomId J) (job_data_of e)
     (initial_state (Z.max 0 (scheduled_at e - now env))) 0 None).

Lemma requeue_one_keeps w r j x :
  getJob (queue w) j = Some x -> getJob (queue (requeue_one env w r)) j = Some x.
Proof.
  intros H. unfold requeue_one, addEmailToQueue.
  destruct (scheduled_at r <? now env); [exact H|]. rewrite Hqueue.
  pose proof (queue_add_keeps (job_data_of r) (Z.max 0 (scheduled_at r - now env))
                (recovery_job_id r) (queue w) j x H) as Hk.
  destruct (queue_add _ _ _ _) as [q' j']. exact Hk.
Qed.



Lemma requeue_fold_keeps l : forall w j x,
  getJob (queue w) j = Some x ->
  getJob (queue (fold_left (requeue_one env) l w)) j = Some x.
Proof.
  induction l as [|r l IH]; intros w j x H; simpl; [exact H|].
  apply IH. apply requeue_one_keeps. exact H.
Qed.

End RecoveryPass.


(** What a recovery pass leaves alone, and where the jobs it adds come
    from. *)
Lemma queue_add_jobs data delay key q x :
  In x (jobs (fst (queue_add data delay key q))) ->
  In x (jobs q) \/
  (job_data x = data /\ job_state x = initial_state delay /\ attemptsMade x = 0%nat).
Proof.
  unfold queue_add.
  destruct (if truthy key then key else None) as [k|].
  - destruct (existsb _ _); simpl; [auto|].
    rewrite in_app_iff. simpl. intros [H|[<-|[]]]; [auto|right; auto].
  - simpl. rewrite in_app_iff. simpl. intros [H|[<-|[]]]; [auto|right; auto].
Qed.

Lemma requeue_one_frame env w r :
  redis (requeue_one env w r) = redis w /\
  mail_calls (requeue_one env w r) = mail_calls w /\
  senders (db (requeue_one env w r)) = senders (db w) /\
  email_logs (db (requeue_one env w r)) = email_logs (db w) /\
  (forall x, In x (jobs (queue (requeue_one env w r))) ->
             In x (jobs (queue w)) \/
             (now env <= scheduled_at r /\ recovered_from (now env) r x)).
Proof.
  unfold requeue_one, addEmailToQueue.
  destruct (scheduled_at r <? now env) eqn:E; [simpl; auto 6|].
  apply Z.ltb_ge in E.
  destruct (queue_ok env); [|simpl; auto 6].
  pose proof (queue_add_jobs (job_data_of r) (Z.max 0 (scheduled_at r - now env))
                (recovery_job_id r) (queue w)) as Hj.
  destruct (queue_add _ _ _ _) as [q' j']. simpl in *.
  repeat split; try reflexivity.
  intros x Hx. destruct (Hj x Hx) as [H|H]; [auto|right; split; [exact E|exact H]].
Qed.

Lemma requeue_fold_frame env l : forall w,
  redis (fold_left (requeue_one env) l w) = redis w /\
  mail_calls (fold_left (requeue_one env) l w) = mail_calls w /\
  senders (db (fold_left (requeue_one env) l w)) = senders (db w) /\
  email_logs (db (fold_left (requeue_one env) l w)) = email_logs (db w) /\
  (forall x, In x (jobs (queue (fold_left (requeue_one env) l w))) ->
             In x (jobs (queue w)) \/
             (exists r, In r l /\ now env <= scheduled_at r /\
                        recovered_from (now env) r x)).
Proof.
  induction l as [|r l IH]; intros w; simpl; [auto 6|].
  destruct (IH (requeue_one env w r)) as (Hr & Hm & Hs & Hl & Hj).
  destruct (requeue_one_frame env w r) as (Hr1 & Hm1 & Hs1 & Hl1 & Hj1).
  rewrite Hr, Hm, Hs, Hl. repeat split; try assumption.
  intros x Hx. destruct (Hj x Hx) as [H|(r' & Hin & H)].
  - destruct (Hj1 x H) as [H1|H1]; [auto|right; exists r; auto].
  - right. exists r'. auto.
Qed.

(** The row stored under an id that recovery does not fetch, or fetches in
    time, stays as it is. *)
Lemma requeue_one_row env w a i cur :
  getEmailById (db w) i = Some cur ->
  getEmailById (db (requeue_one env w a)) i =
    Some (if (scheduled_at a <? now env) && has_id i a
          then set_error FAILED stale_message (now env) cur else cur).
Proof.
  intros Hc. unfold requeue_one, addEmailToQueue.
  destruct (scheduled_at a <? now env); simpl.
  - rewrite getEmailById_update by apply set_error_id. rewrite Hc. simpl.
    unfold upd. pose proof (getEmailById_has_id _ _ _ Hc) as Hi.
    unfold has_id in *. apply String.eqb_eq in Hi. rewrite Hi.
    rewrite String.eqb_sym. reflexivity.
  - destruct (queue_ok env); [|exact Hc].
    destruct (queue_add _ _ _ _) as [q' j']. exact Hc.
Qed.

Lemma requeue_fold_row_untouched env i l : forall w cur,
  List.filter (has_id i) l = [] ->
  getEmailById (db w) i = Some cur ->
  getEmailById (db (fold_left (requeue_one env) l w)) i = Some cur.
Proof.
  induction l as [|a l IH]; intros w cur Hf Hc; simpl in *; [exact Hc|].
  destruct (has_id i a) eqn:Ha; [discriminate Hf|].
  apply IH; [exact Hf|]. rewrite (requeue_one_row env w a i cur Hc), Ha, andb_false_r.
  reflexivity.
Qed.







(** * Further properties of the engine *)

(** ** The keys of the hourly counter *)

Lemma rate_key_window z z' sender t t' :
  rate_key z sender t = rate_key z' sender t' ->
  getCurrentHourWindow z t = getCurrentHourWindow z' t'.
Proof.
  unfold rate_key. intros H.
  apply (inj (String.append "rate_limit:")) in H.
  apply (inj (String.append sender)) in H.
  apply (inj (String.append ":")) in H.
  apply (inj pretty) in H. exact H.
Qed.

Lemma rate_key_same_window z z' sender t t' :
  getCurrentHourWindow z t = getCurrentHourWindow z' t' ->
  rate_key z sender t = rate_key z' sender t'.
Proof. unfold rate_key. intros ->. reflexivity. Qed.

(** ** The successful attempt *)

Section SuccessfulAttempt.
Variable MAX : Z.
Variables (env : Env) (j : JobId) (x : Job) (w : World) (sender : Sender) (mid : string).
Hypothesis Hjob : getJob (queue w) j = Some x.
Hypothesis Hel : eligible x = true.
Hypothesis Hallowed :
  allowed (checkRateLimit MAX env (redis w) (senderId (job_data x))) = true.
Hypothesis Hsender : getSenderById (db w) (senderId (job_data x)) None = Some sender.
Hypothesis Hsmtp : smtp env = inl mid.
Hypothesis Hincr : redis_incr_ok env = true.
Hypothesis Hexp : redis_expire_ok env = true.

Local Abbreviation data := (job_data x).
Local Abbreviation key :=
  (rate_key (zone env) (senderId (job_data x)) (clock env IncrementWindow)).

Lemma processor_success :
  processor MAX env data w =
  (with_redis (<[key := default 0 (redis w !! key) + 1]> (redis w))
     (with_db (insert_log (mkEmailLog (emailId data) "SENT"
                 ("Email sent successfully. Message ID: " +:+ mid)
                 (clock env SentAttemptedAt)))
        (with_db (update_emails (emailId data)
                    (set_sent (clock env SentAt) (clock env SentUpdatedAt)))
           (with_mail (mail_options sender data)
              (with_db (update_emails (emailId data)
                          (set_processing (clock env ProcessingUpdatedAt))) w)))),
   inl mid).
Proof.
  unfold processor. rewrite Hallowed. simpl.
  change (getSenderById
            (update_emails (emailId (job_data x))
               (set_processing (clock env ProcessingUpdatedAt)) (db w))
            (senderId (job_data x)) None)
    with (getSenderById (db w) (senderId (job_data x)) None).
  rewrite Hsender, Hsmtp. unfold incrementRateLimit. simpl. rewrite Hincr, Hexp. reflexivity.
Qed.

Lemma success_job :
  getJob (queue (runJob MAX env j w)) j =
    Some (mkJob (job_id x) (job_data x) Completed (attemptsMade x) (failedReason x)).
Proof.
  rewrite (runJob_queue MAX env j x w Hjob Hel).
  rewrite processor_queue, Hjob, processor_success. reflexivity.
Qed.
End SuccessfulAttempt.



(** ** How often a job reaches the transport *)

Lemma processor_mail_le MAX env data w :
  (length (mail_calls (fst (processor MAX env data w))) <= S (length (mail_calls w)))%nat.
Proof.
  unfold processor.
  destruct (negb _); [rewrite catch_block_mail; lia|].
  destruct (getSenderById _ _ _) as [sender|]; [|rewrite catch_block_mail; simpl; lia].
  assert (Hone : forall o, length (mail_calls w ++ [o]) = S (length (mail_calls w))).
  { intros o. rewrite length_app. simpl. lia. }
  destruct (smtp env) as [mid|msg]; [|rewrite catch_block_mail; simpl; rewrite Hone; lia].
  destruct (incrementRateLimit _ _ _) as [r [n|msg]]; simpl; [rewrite Hone; lia|].
  rewrite catch_block_mail. simpl. rewrite Hone. lia.
Qed.

Lemma calls_left_settle env res x :
  eligible x = true ->
  ((if eligible (settle env res x)
    then Nat.max 1 (attempts - attemptsMade (settle env res x)) else 0) + 1
   <= Nat.max 1 (attempts - attemptsMade x))%nat.
Proof.
  intros _. unfold settle. destruct res as [mid|msg]; simpl; [lia|].
  destruct (S (attemptsMade x) <? attempts)%nat eqn:E; simpl.
  - apply Nat.ltb_lt in E. unfold attempts in *.
    destruct (initial_state _); simpl; lia.
  - lia.
Qed.

Lemma runJob_spends_a_call MAX env j w :
  (length (mail_calls (runJob MAX env j w)) + calls_left j (queue (runJob MAX env j w))
   <= length (mail_calls w) + calls_left j (queue w))%nat.
Proof.
  destruct (getJob (queue w) j) as [x|] eqn:Hj.
  - destruct (eligible x) eqn:Hel.
    + destruct (runJob_world MAX env j x w Hj Hel) as (_ & _ & Hmail).
      pose proof (runJob_queue MAX env j x w Hj Hel) as Hq.
      rewrite processor_queue, Hj in Hq. simpl in Hq.
      unfold calls_left. rewrite Hq, Hj, Hel, Hmail.
      pose proof (processor_mail_le MAX env (job_data x) w) as Hle.
      pose proof (calls_left_settle env (snd (processor MAX env (job_data x) w)) x Hel) as Hs.
      lia.
    + unfold runJob. rewrite Hj, Hel. lia.
  - unfold runJob. rewrite Hj. lia.
Qed.

Lemma run_attempts_spend_calls MAX j envs : forall w,
  (length (mail_calls (run_attempts MAX j envs w))
     + calls_left j (queue (run_attempts MAX j envs w))
   <= length (mail_calls w) + calls_left j (queue w))%nat.
Proof.
  induction envs as [|env envs IH]; intros w; simpl; [lia|].
  etransitivity; [apply IH|apply runJob_spends_a_call].
Qed.

(** X2: whatever the SMTP server, Redis and the clock do, the attempts made
    on a job that has not been tried yet hand its email to the transport at
    most 3 times in all ([attempts] of the queue's default job options). *)
Theorem X2_a_job_reaches_the_transport_at_most_three_times :
  forall (MAX : Z) (j : JobId) (x : Job) (envs : list Env) (w : World),
    getJob (queue w) j = Some x -> attemptsMade x = 0%nat ->
    (length (mail_calls (run_attempts MAX j envs w)) <= length (mail_calls w) + 3)%nat.
Proof.
  intros MAX j x envs w Hj H0.
  pose proof (run_attempts_spend_calls MAX j envs w) as H.
  assert (Hc : (calls_left j (queue w) <= 3)%nat).
  { unfold calls_left. rewrite Hj, H0. destruct (eligible x); simpl; lia. }
  lia.
Qed.

Lemma X2_witness :
  (length (mail_calls
     (run_attempts 100 (AutoId 1)
        [env_at 5000 (inr "Connection timeout") "e2";
         env_at 9000 (inr "Connection timeout") "e2";
         env_at 15000 (inr "Connection timeout") "e2";
         env_at 20000 (inl "m1") "e2"] world_scheduled))
   <= length (mail_calls world_scheduled) + 3)%nat.
Proof.
  apply (X2_a_job_reaches_the_transport_at_most_three_times 100 (AutoId 1)
           (bob_job (Delayed 4000) 0 None)); reflexivity.
Defined.

(** ** The hourly counter *)

Lemma count_deliveries_in_window sender z t envs : forall r,
  Forall (fun env => redis_incr_ok env = true /\
                     getCurrentHourWindow (zone env) (now env) = getCurrentHourWindow z t)
    envs ->
  default 0 (count_deliveries sender envs r !! rate_key z sender t) =
    default 0 (r !! rate_key z sender t) + Z.of_nat (length envs).
Proof.
  induction envs as [|env envs IH]; intros r Hall; simpl; [lia|].
  inversion Hall as [|? ? [Hok Hwin] Hrest]; subst.
  unfold count_deliveries in *. simpl. rewrite IH by exact Hrest.
  unfold incrementRateLimit. rewrite Hok.
  rewrite (rate_key_same_window (zone env) z sender (now env) t Hwin).
  destruct (redis_expire_ok env); simpl; rewrite lookup_insert_eq; simpl; lia.
Qed.

(** X3: deliveries counted for a sender within one hour window add up: after
    [n] increments that Redis accepted, a check in the same window reports
    the previous count plus [n], and admits the sender exactly when that is
    still below the limit.  So once the limit is reached the next attempt
    in the window is refused. *)
Theorem X3_counter_adds_up_within_the_window :
  forall (MAX : Z) (sender : string) (envs : list Env) (env' : Env) (r : gmap string Z),
    Forall (fun env => redis_incr_ok env = true /\
                       getCurrentHourWindow (zone env) (now env) =
                         getCurrentHourWindow (zone env') (now env')) envs ->
    redis_get_ok env' = true ->
    let before := checkRateLimit MAX env' r sender in
    let after := checkRateLimit MAX env' (count_deliveries sender envs r) sender in
    current after = current before + Z.of_nat (length envs) /\
    allowed after = (current before + Z.of_nat (length envs) <? MAX) /\
    (MAX <= current before + Z.of_nat (length envs) -> allowed after = false).
Proof.
  intros MAX sender envs env' r Hall Hok before after. subst before after.
  unfold checkRateLimit. rewrite Hok. simpl.
  rewrite (count_deliveries_in_window sender (zone env') (now env') envs r Hall).
  repeat split. intros Hfull. apply Z.ltb_ge. exact Hfull.
Qed.

Lemma X3_witness :
  let envs := [env_at 5000 (inl "m1") "e2"; env_at 6000 (inl "m2") "e2"] in
  let env' := env_at 7000 (inl "m3") "e2" in
  let before := checkRateLimit 2 env' ∅ "s1" in
  let after := checkRateLimit 2 env' (count_deliveries "s1" envs ∅) "s1" in
  current after = current before + Z.of_nat (length envs) /\
  allowed after = (current before + Z.of_nat (length envs) <? 2) /\
  (2 <= current before + Z.of_nat (length envs) -> allowed after = false).
Proof.
  apply (X3_counter_adds_up_within_the_window 2 "s1"
           [env_at 5000 (inl "m1") "e2"; env_at 6000 (inl "m2") "e2"]
           (env_at 7000 (inl "m3") "e2") ∅).
  - repeat constructor.
  - reflexivity.
Defined.

(** X4: the windows are fixed and separate: what is counted for a sender in
    one hour is not seen by a check made in another hour, whose count starts
    again from what that hour's own key holds. *)
Theorem X4_counter_of_another_hour_is_not_seen :
  forall (MAX : Z) (sender : string) (env env' : Env) (r : gmap string Z),
    getCurrentHourWindow (zone env) (now env) <> getCurrentHourWindow (zone env') (now env') ->
    checkRateLimit MAX env' (fst (incrementRateLimit env r sender)) sender =
    checkRateLimit MAX env' r sender.
Proof.
  intros MAX sender env env' r Hne.
  assert (Hk : rate_key (zone env) sender (now env) <> rate_key (zone env') sender (now env')).
  { intros H. apply Hne. apply (rate_key_window _ _ sender). exact H. }
  unfold checkRateLimit, incrementRateLimit.
  destruct (redis_get_ok env'); [|reflexivity].
  destruct (redis_incr_ok env); [|reflexivity].
  destruct (redis_expire_ok env); simpl; rewrite lookup_insert_ne by exact Hk; reflexivity.
Qed.

Lemma X4_witness :
  checkRateLimit 100 (env_at 3601000 (inl "m1") "e2")
    (fst (incrementRateLimit (env_at 5000 (inl "m1") "e2") ∅ "s1")) "s1" =
  checkRateLimit 100 (env_at 3601000 (inl "m1") "e2") ∅ "s1".
Proof.
  apply (X4_counter_of_another_hour_is_not_seen 100 "s1"
           (env_at 5000 (inl "m1") "e2") (env_at 3601000 (inl "m1") "e2") ∅).
  vm_compute. discriminate.
Defined.

(** ** Hour windows in a zone that never changes its clock *)

Lemma fixed_zone_next_hour offset t :
  0 < getNextHourTimestamp (fixed_zone offset) t - t <= HOUR_MS /\
  LocalTime (fixed_zone offset) (getNextHourTimestamp (fixed_zone offset) t) mod HOUR_MS = 0 /\
  getCurrentHourWindow (fixed_zone offset) (getNextHourTimestamp (fixed_zone offset) t) =
    getCurrentHourWindow (fixed_zone offset) t + 1 /\
  getNextHourWindow (fixed_zone offset) t = getCurrentHourWindow (fixed_zone offset) t + 1.
Proof.
  unfold getNextHourTimestamp, getNextHourWindow, getCurrentHourWindow, LocalTime, UTC,
    HOUR_MS. simpl.
  pose proof (Z.div_mod (t + offset) 3600000 ltac:(lia)) as E.
  pose proof (Z.mod_pos_bound (t + offset) 3600000 ltac:(lia)) as B.
  replace (((t + offset) / 3600000 + 1) * 3600000 - offset + offset)
    with (((t + offset) / 3600000 + 1) * 3600000) by lia.
  replace (t + offset + 3600000 - offset + offset) with (t + offset + 1 * 3600000) by lia.
  split; [lia|]. split; [apply Z.mod_mul; lia|].
  split; [apply Z.div_mul; lia|apply Z.div_add; lia].
Qed.

(** X5: in a time zone whose offset from UTC never changes, whatever the
    offset, the delay the worker's backoff strategy computes for a
    rate-limit error ends exactly at the start of the next hour window: it
    is positive and at most one hour, the local time it leads to is a full
    hour, and the window of that instant is the one [getNextHourWindow]
    names, the successor of the current one. *)
Theorem X5_rate_limit_delay_ends_at_the_next_window_start :
  forall (offset t : Z) (n : nat) (st : RateLimitStatus),
    let z := fixed_zone offset in
    let d := backoffStrategy z t n (rate_limited_message st) in
    d = getNextHourTimestamp z t - t /\
    0 < d <= HOUR_MS /\
    LocalTime z (t + d) mod HOUR_MS = 0 /\
    getCurrentHourWindow z (t + d) = getNextHourWindow z t /\
    getNextHourWindow z t = getCurrentHourWindow z t + 1.
Proof.
  intros offset t n st z d. subst z d. unfold backoffStrategy.
  rewrite rate_limited_message_is_rate_limited.
  destruct (fixed_zone_next_hour offset t) as (Hd & Hmod & Hwin & Hnext).
  replace (t + (getNextHourTimestamp (fixed_zone offset) t - t))
    with (getNextHourTimestamp (fixed_zone offset) t) by lia.
  split; [reflexivity|]. split; [exact Hd|].
  split; [exact Hmod|]. split; [rewrite Hnext; exact Hwin|exact Hnext].
Qed.

(** In Kolkata, half an hour off the hours of UTC, the delay computed at
    01:00:01 UTC ends at 01:30 UTC, which is 07:00 local time. *)
Lemma next_hour_in_kolkata :
  backoffStrategy kolkata 3601000 1 "RATE_LIMITED: 100/100 emails sent." = 1799000 /\
  (3601000 + 1799000) mod HOUR_MS = 1800000 /\
  LocalTime kolkata (3601000 + 1799000) = 7 * HOUR_MS.
Proof. vm_compute. repeat split; reflexivity. Qed.

(** ** Attempts without a sender, and without Redis *)

Lemma sender_not_found_is_not_rate_limited i :
  is_rate_limited ("Sender " +:+ i +:+ " not found") = false.
Proof. reflexivity. Qed.

Lemma update_emails_absent i f d :
  existsb (has_id i) (emails d) = false -> update_emails i f d = d.
Proof.
  intros H. unfold update_emails. destruct d as [es ss ls]. simpl in *. f_equal.
  induction es as [|e es IH]; simpl in *; [reflexivity|].
  apply orb_false_iff in H. destruct H as [He Hes].
  unfold upd at 1. rewrite He, IH by exact Hes. reflexivity.
Qed.

Lemma insert_log_refused l d : log_accepted l d = false -> insert_log l d = d.
Proof. intros H. unfold insert_log. rewrite H. reflexivity. Qed.

(** X6: when the sender of a job has been deleted, and with it, by the
    cascade, the email, the attempt does not reach the transport and leaves
    the counters alone; there is no row to mark and the log entry of the
    failure is refused, so the database stays as it was.  The error "Sender
    <id> not found" is thrown on to the queue and counts as one of the job's
    3 attempts. *)
Theorem X6_attempt_without_sender_fails_before_delivery :
  forall (MAX : Z) (env : Env) (j : JobId) (x : Job) (w : World),
    getJob (queue w) j = Some x -> eligible x = true ->
    allowed (checkRateLimit MAX env (redis w) (senderId (job_data x))) = true ->
    getSenderById (db w) (senderId (job_data x)) None = None ->
    existsb (has_id (emailId (job_data x))) (emails (db w)) = false ->
    let w' := runJob MAX env j w in
    let msg := "Sender " +:+ senderId (job_data x) +:+ " not found" in
    mail_calls w' = mail_calls w /\
    redis w' = redis w /\
    db w' = db w /\
    (exists x', getJob (queue w') j = Some x' /\
                attemptsMade x' = S (attemptsMade x) /\
                failedReason x' = Some msg /\
                eligible x' = (S (attemptsMade x) <? attempts)%nat).
Proof.
  intros MAX env j x w Hj Hel Ha Hs Hno w' msg0. subst w' msg0.
  set (msg := "Sender " +:+ senderId (job_data x) +:+ " not found").
  assert (Hp : processor MAX env (job_data x) w =
               catch_block env (job_data x) msg
                 (with_db (update_emails (emailId (job_data x))
                             (set_processing (clock env ProcessingUpdatedAt))) w)).
  { unfold processor. rewrite Ha. simpl.
    change (getSenderById
              (update_emails (emailId (job_data x))
                 (set_processing (clock env ProcessingUpdatedAt)) (db w))
              (senderId (job_data x)) None)
      with (getSenderById (db w) (senderId (job_data x)) None).
    rewrite Hs. reflexivity. }
  assert (Hm : is_rate_limited msg = false)
    by apply sender_not_found_is_not_rate_limited.
  clearbody msg.
  rewrite (catch_block_failed env (job_data x) msg _ Hm) in Hp.
  destruct (runJob_world MAX env j x w Hj Hel) as (Hdb & Hredis & Hmail).
  pose proof (runJob_queue MAX env j x w Hj Hel) as Hq.
  rewrite processor_queue, Hj in Hq.
  rewrite Hp in Hdb, Hredis, Hmail, Hq. simpl in Hdb, Hredis, Hmail, Hq.
  split; [exact Hmail|]. split; [exact Hredis|]. split.
  { rewrite Hdb.
    rewrite (update_emails_absent _ _ (db w)) by exact Hno.
    rewrite (update_emails_absent _ _ (db w)) by exact Hno.
    apply insert_log_refused. exact Hno. }
  eexists. split; [exact Hq|].
  destruct (settle_failure env msg x) as [Hmade _].
  split; [exact Hmade|]. split; [|apply settle_eligible].
  unfold settle. destruct (S (attemptsMade x) <? attempts)%nat; reflexivity.
Qed.

Lemma X6_witness :
  let env := env_at 5000 (inl "m1") "e2" in
  let w' := runJob 100 env (AutoId 1) world_sender_deleted in
  let msg := "Sender " +:+ "s1" +:+ " not found" in
  mail_calls w' = mail_calls world_sender_deleted /\
  redis w' = redis world_sender_deleted /\
  db w' = db world_sender_deleted /\
  (exists x', getJob (queue w') (AutoId 1) = Some x' /\
              attemptsMade x' = 1%nat /\
              failedReason x' = Some msg /\
              eligible x' = true).
Proof.
  apply (X6_attempt_without_sender_fails_before_delivery 100
           (env_at 5000 (inl "m1") "e2") (AutoId 1)
           (bob_job (Delayed 4000) 0 None) world_sender_deleted);
    vm_compute; reflexivity.
Defined.

(** The deletion of the sender by its owner: the cascade takes Bob's email
    and its log entry along, and the job stays in the queue. *)
Lemma sender_deleted_job_stays :
  snd (deleteSenderController "u1" "s1" world_scheduled) =
    mkResponse 200 "Sender deleted successfully" None /\
  db world_sender_deleted = mkDb [] [] [] /\
  queue world_sender_deleted = queue world_scheduled /\
  map job_id (pending_jobs_for "e1" (queue world_sender_deleted)) = [AutoId 1].
Proof. vm_compute. repeat split; reflexivity. Qed.

(** X7: the limiter fails open at the worker too: when Redis does not answer
    the read of the counter, the attempt goes on to the transport whatever
    the counter holds, also when the sender's hour is full. *)
Theorem X7_redis_read_failure_admits_the_attempt :
  forall (MAX : Z) (env : Env) (j : JobId) (x : Job) (w : World) (sender : Sender),
    getJob (queue w) j = Some x -> eligible x = true ->
    redis_get_ok env = false ->
    getSenderById (db w) (senderId (job_data x)) None = Some sender ->
    mail_calls (runJob MAX env j w) =
      (mail_calls w ++ [mail_options sender (job_data x)])%list.
Proof.
  intros MAX env j x w sender Hj Hel Hko Hs.
  destruct (runJob_world MAX env j x w Hj Hel) as (_ & _ & ->).
  apply processor_mail; [|exact Hs].
  apply checkRateLimit_fails_open. exact Hko.
Qed.

Lemma X7_witness :
  default 0 (redis world_busy !! rate_key utc "s1" 3601000) = 100 /\
  mail_calls (runJob 100 env_redis_read_down (AutoId 1) world_busy) =
    (mail_calls world_busy ++ [mail_options alice bob_data])%list.
Proof.
  split; [vm_compute; reflexivity|].
  apply (X7_redis_read_failure_admits_the_attempt 100 env_redis_read_down (AutoId 1)
           (bob_job (Delayed 3594000) 0 None) world_busy alice);
    vm_compute; reflexivity.
Defined.

(** ** The queue *)

Lemma queue_add_present data delay k q :
  k <> EmptyString ->
  snd (queue_add data delay (Some k) q) = CustomId k /\
  existsb (has_job_id (CustomId k)) (jobs (fst (queue_add data delay (Some k) q))) = true.
Proof.
  intros Hne. unfold queue_add. rewrite (truthy_nonempty k Hne).
  destruct (existsb (has_job_id (CustomId k)) (jobs q)) eqn:E; simpl; [auto|].
  split; [reflexivity|]. rewrite existsb_app, E. simpl.
  unfold has_job_id. simpl. rewrite String.eqb_refl. reflexivity.
Qed.

Lemma queue_add_existing data delay k q :
  k <> EmptyString ->
  existsb (has_job_id (CustomId k)) (jobs q) = true ->
  queue_add data delay (Some k) q = (q, CustomId k).
Proof.
  intros Hne Hex. unfold queue_add. rewrite (truthy_nonempty k Hne), Hex. reflexivity.
Qed.

(** X8: adding to the queue under a non-empty idempotency key is idempotent:
    once a job with that key is in the queue, a further [addEmailToQueue]
    with the key returns the same job id and leaves the queue as it is,
    whatever data and time it is given; the job kept is the first one. *)
Theorem X8_adding_under_the_same_key_twice_adds_once :
  forall (env1 env2 : Env) (d1 d2 : EmailJobData) (t1 t2 : Z) (k : string) (q : Queue),
    k <> EmptyString -> queue_ok env1 = true -> queue_ok env2 = true ->
    let r1 := addEmailToQueue env1 d1 t1 (Some k) q in
    snd r1 = inl (CustomId k) /\
    addEmailToQueue env2 d2 t2 (Some k) (fst r1) = (fst r1, inl (CustomId k)) /\
    (getJob q (CustomId k) = None ->
     getJob (fst r1) (CustomId k) =
       Some (mkJob (CustomId k) d1 (initial_state (Z.max 0 (t1 - now env1))) 0 None)).
Proof.
  intros env1 env2 d1 d2 t1 t2 k q Hne H1 H2 r1. subst r1.
  unfold addEmailToQueue. rewrite H1, H2.
  destruct (queue_add_present d1 (Z.max 0 (t1 - now env1)) k q Hne) as [Hid Hex].
  pose proof (queue_add_new d1 (Z.max 0 (t1 - now env1)) k q) as Hnew.
  destruct (queue_add d1 (Z.max 0 (t1 - now env1)) (Some k) q) as [q1 j1].
  simpl in *. subst j1.
  split; [reflexivity|]. split.
  - rewrite (queue_add_existing d2 (Z.max 0 (t2 - now env2)) k q1 Hne Hex). reflexivity.
  - intros Hnone. apply Hnew; assumption.
Qed.

Lemma X8_witness :
  let r1 := addEmailToQueue (env_at 1000 (inl "m0") "e1") bob_data 5000 (Some "k1")
              (mkQueue [] 0) in
  snd r1 = inl (CustomId "k1") /\
  addEmailToQueue (env_at 2000 (inl "m0") "e2") bob_data 9000 (Some "k1") (fst r1) =
    (fst r1, inl (CustomId "k1")) /\
  (getJob (mkQueue [] 0) (CustomId "k1") = None ->
   getJob (fst r1) (CustomId "k1") =
     Some (mkJob (CustomId "k1") bob_data (initial_state (Z.max 0 (5000 - 1000))) 0 None)).
Proof.
  apply (X8_adding_under_the_same_key_twice_adds_once
           (env_at 1000 (inl "m0") "e1") (env_at 2000 (inl "m0") "e2")
           bob_data bob_data 5000 9000 "k1" (mkQueue [] 0));
    [discriminate | reflexivity | reflexivity].
Defined.

(** X9: a job is never given a negative delay.  When the queue accepts a new
    job, it waits exactly until [scheduledAt] if that lies in the future and
    is ready at once if it does not; when the queue throws, nothing is
    added and the error is passed on. *)
Theorem X9_a_new_job_waits_until_its_time_and_not_longer :
  forall (env : Env) (data : EmailJobData) (scheduledAt : Z) (key : option string)
         (q : Queue),
    (forall k, key = Some k -> getJob q (CustomId k) = None) ->
    let r := addEmailToQueue env data scheduledAt key q in
    (queue_ok env = false -> r = (q, inr (queue_error env))) /\
    (queue_ok env = true ->
     exists jid, snd r = inl jid /\
       jobs (fst r) =
         (jobs q ++
          [mkJob jid data
             (if now env <? scheduledAt then Delayed (scheduledAt - now env) else Waiting)
             0 None])%list).
Proof.
  intros env data t key q Hfree r. subst r. unfold addEmailToQueue.
  split; intros Hq; rewrite Hq; [reflexivity|].
  assert (Hst : initial_state (Z.max 0 (t - now env)) =
                if now env <? t then Delayed (t - now env) else Waiting).
  { unfold initial_state. destruct (now env <? t) eqn:E.
    - apply Z.ltb_lt in E. rewrite Z.max_r by lia.
      assert (H0 : (0 <? t - now env) = true) by (apply Z.ltb_lt; lia).
      rewrite H0. reflexivity.
    - apply Z.ltb_ge in E. rewrite Z.max_l by lia. reflexivity. }
  unfold queue_add.
  destruct (truthy key) eqn:Ht.
  - destruct key as [k|]; [|discriminate Ht].
    rewrite (find_None_existsb _ _ (Hfree k eq_refl)). simpl.
    eexists. split; [reflexivity|]. rewrite Hst. reflexivity.
  - simpl. eexists. split; [reflexivity|]. rewrite Hst. reflexivity.
Qed.

Lemma X9_witness :
  let r := addEmailToQueue (env_at 6000 (inl "m0") "e1") bob_data 5000 None (mkQueue [] 0) in
  (queue_ok (env_at 6000 (inl "m0") "e1") = false ->
   r = (mkQueue [] 0, inr (queue_error (env_at 6000 (inl "m0") "e1")))) /\
  (queue_ok (env_at 6000 (inl "m0") "e1") = true ->
   exists jid, snd r = inl jid /\
     jobs (fst r) = ([] ++ [mkJob jid bob_data Waiting 0 None])%list).
Proof.
  apply (X9_a_new_job_waits_until_its_time_and_not_longer
           (env_at 6000 (inl "m0") "e1") bob_data 5000 None (mkQueue [] 0)).
  intros k Hk. discriminate Hk.
Defined.

(** ** Restart recovery, continued *)

Lemma insert_by_scheduled_at_perm e l :
  Permutation (insert_by_scheduled_at e l) (e :: l).
Proof.
  induction l as [|x l IH]; simpl; [reflexivity|].
  destruct (scheduled_at e <=? scheduled_at x); [reflexivity|].
  rewrite IH. apply perm_swap.
Qed.

Lemma order_by_scheduled_at_perm l : Permutation (order_by_scheduled_at l) l.
Proof.
  induction l as [|x l IH]; simpl; [reflexivity|].
  rewrite insert_by_scheduled_at_perm. constructor. exact IH.
Qed.

Lemma insert_by_scheduled_at_sorted e l :
  Sorted by_scheduled_at l -> Sorted by_scheduled_at (insert_by_scheduled_at e l).
Proof.
  induction l as [|x l IH]; intros Hs; simpl.
  - repeat constructor.
  - destruct (scheduled_at e <=? scheduled_at x) eqn:E.
    + constructor; [exact Hs|]. constructor. apply Z.leb_le. exact E.
    + apply Z.leb_gt in E. inversion Hs as [|? ? Hs' Hhd]; subst.
      constructor; [apply IH; exact Hs'|].
      destruct l as [|y l]; simpl.
      * constructor. unfold by_scheduled_at. lia.
      * destruct (scheduled_at e <=? scheduled_at y).
        -- constructor. unfold by_scheduled_at. lia.
        -- inversion Hhd; subst. constructor. assumption.
Qed.

Lemma order_by_scheduled_at_sorted l : Sorted by_scheduled_at (order_by_scheduled_at l).
Proof.
  induction l as [|x l IH]; simpl; [constructor|].
  apply insert_by_scheduled_at_sorted. exact IH.
Qed.

Lemma is_pending_status e :
  is_pending e = true <-> status e = SCHEDULED \/ status e = RETRYING.
Proof. unfold is_pending. destruct (status e); simpl; intuition discriminate. Qed.

(** X11: the rows recovery works on are exactly the rows of table [emails]
    that are SCHEDULED or RETRYING and not yet due at the instant of the
    query, each as often as it is stored, and they are handled earliest
    first. *)
Theorem X11_recovery_fetches_the_pending_rows_earliest_first :
  forall (tq : Z) (d : Db),
    Permutation (pending_query tq d)
      (List.filter (fun e => is_pending e && (tq <=? scheduled_at e)) (emails d)) /\
    StronglySorted by_scheduled_at (pending_query tq d) /\
    (forall e, In e (pending_query tq d) <->
               In e (emails d) /\ (status e = SCHEDULED \/ status e = RETRYING) /\
               tq <= scheduled_at e).
Proof.
  intros tq d. split; [apply order_by_scheduled_at_perm|]. split.
  - apply Sorted_StronglySorted; [|apply order_by_scheduled_at_sorted].
    intros a b c. unfold by_scheduled_at. lia.
  - intros e. rewrite In_pending_query, is_pending_status. reflexivity.
Qed.


Lemma recovery_job_id_nonempty r :
  id r <> EmptyString -> exists k, recovery_job_id r = Some k /\ k <> EmptyString.
Proof.
  intros Hid. unfold recovery_job_id, or_else.
  destruct (truthy (idempotency_key r)) eqn:T; [|exists (id r); auto].
  destruct (idempotency_key r) as [k|]; [|discriminate T].
  exists k. split; [reflexivity|]. intros ->. discriminate T.
Qed.

Lemma existsb_getJob q j :
  existsb (has_job_id j) (jobs q) = true <-> exists x, getJob q j = Some x.
Proof.
  unfold getJob. induction (jobs q) as [|a l IH]; simpl.
  - split; [discriminate|intros [x H]; discriminate H].
  - destruct (has_job_id j a); simpl; [split; eauto|exact IH].
Qed.

Section RecoveryTwice.
Variable env : Env.
Hypothesis Hqueue : queue_ok env = true.

Lemma requeue_one_present w r k :
  now env <= scheduled_at r -> recovery_job_id r = Some k -> k <> EmptyString ->
  existsb (has_job_id (CustomId k)) (jobs (queue (requeue_one env w r))) = true.
Proof.
  intros Hdue Hk Hne. unfold requeue_one, addEmailToQueue.
  apply Z.ltb_ge in Hdue. rewrite Hdue, Hqueue, Hk.
  destruct (queue_add_present (job_data_of r) (Z.max 0 (scheduled_at r - now env))
              k (queue w) Hne) as [_ Hex].
  destruct (queue_add _ _ _ _) as [q' j']. exact Hex.
Qed.

Lemma requeue_fold_present l : forall w r k,
  In r l -> now env <= scheduled_at r -> recovery_job_id r = Some k -> k <> EmptyString ->
  existsb (has_job_id (CustomId k)) (jobs (queue (fold_left (requeue_one env) l w))) = true.
Proof.
  induction l as [|a l IH]; intros w r k Hin Hdue Hk Hne; simpl; [destruct Hin|].
  destruct Hin as [->|Hin]; [|apply (IH _ r k); assumption].
  pose proof (requeue_one_present w r k Hdue Hk Hne) as Hp.
  apply existsb_getJob in Hp. destruct Hp as [x Hx].
  apply existsb_getJob. exists x. apply requeue_fold_keeps; assumption.
Qed.
End RecoveryTwice.

Lemma requeue_one_pending_rows env w r e :
  In e (emails (db (requeue_one env w r))) -> is_pending e = true -> In e (emails (db w)).
Proof.
  unfold requeue_one, addEmailToQueue.
  destruct (scheduled_at r <? now env).
  - simpl. rewrite in_map_iff. intros (x & Hx & Hin) Hp. unfold upd in Hx.
    destruct (has_id (id r) x); [|subst; exact Hin].
    subst e. discriminate Hp.
  - destruct (queue_ok env); [|auto].
    destruct (queue_add _ _ _ _) as [q' j']. auto.
Qed.

Lemma requeue_fold_pending_rows env l : forall w e,
  In e (emails (db (fold_left (requeue_one env) l w))) -> is_pending e = true ->
  In e (emails (db w)).
Proof.
  induction l as [|a l IH]; intros w e Hin Hp; simpl in *; [exact Hin|].
  apply (requeue_one_pending_rows env w a e); [|exact Hp]. apply IH; assumption.
Qed.

Lemma requeue_one_same_queue env w r :
  (now env <= scheduled_at r ->
   exists k, recovery_job_id r = Some k /\ k <> EmptyString /\
             existsb (has_job_id (CustomId k)) (jobs (queue w)) = true) ->
  queue (requeue_one env w r) = queue w.
Proof.
  intros H. unfold requeue_one, addEmailToQueue.
  destruct (scheduled_at r <? now env) eqn:E; [reflexivity|].
  apply Z.ltb_ge in E. destruct (H E) as (k & Hk & Hne & Hex).
  destruct (queue_ok env); [|reflexivity].
  rewrite Hk, (queue_add_existing _ _ k (queue w) Hne Hex). reflexivity.
Qed.

Lemma requeue_fold_same_queue env l : forall w,
  (forall r, In r l -> now env <= scheduled_at r ->
     exists k, recovery_job_id r = Some k /\ k <> EmptyString /\
               existsb (has_job_id (CustomId k)) (jobs (queue w)) = true) ->
  queue (fold_left (requeue_one env) l w) = queue w.
Proof.
  induction l as [|a l IH]; intros w H; simpl; [reflexivity|].
  assert (Ha : queue (requeue_one env w a) = queue w).
  { apply requeue_one_same_queue. apply H. left. reflexivity. }
  rewrite IH; [exact Ha|].
  intros r Hin Hdue. rewrite Ha. apply H; [right; exact Hin|exact Hdue].
Qed.

(** X13: recovery can be run again without harm to the queue.  After a pass
    in which the database and the queue answered, a later pass adds no job:
    every row it still finds pending and due in the future already has its
    job, under the id [idempotency_key || id], and [add] on an id that is
    present adds nothing. *)
Theorem X13_a_second_recovery_pass_adds_no_job :
  forall (tq tq2 : Z) (env env2 : Env) (w : World),
    db_ok env = true -> queue_ok env = true ->
    tq <= tq2 -> now env <= now env2 ->
    (forall r, In r (emails (db w)) -> id r <> EmptyString) ->
    queue (requeuePendingEmails tq2 env2 (requeuePendingEmails tq env w)) =
    queue (requeuePendingEmails tq env w).
Proof.
  intros tq tq2 env env2 w Hdb Hq Htq Hnow Hids.
  unfold requeuePendingEmails at 1. destruct (db_ok env2); [|reflexivity].
  apply requeue_fold_same_queue. intros r Hin Hdue.
  apply In_pending_query in Hin. destruct Hin as (Hin & Hp & Htq2).
  unfold requeuePendingEmails in Hin |- *. rewrite Hdb in Hin |- *.
  apply requeue_fold_pending_rows in Hin; [|exact Hp].
  destruct (recovery_job_id_nonempty r (Hids r Hin)) as (k & Hk & Hne).
  exists k. split; [exact Hk|]. split; [exact Hne|].
  apply (requeue_fold_present env Hq _ w r k); try assumption; [|lia].
  apply In_pending_query. split; [exact Hin|]. split; [exact Hp|lia].
Qed.

Lemma X13_witness :
  queue (requeuePendingEmails 3000 (env_at 3000 (inl "m1") "e3")
           (requeuePendingEmails 2000 (env_at 2000 (inl "m1") "e3") world_two_rows)) =
  queue (requeuePendingEmails 2000 (env_at 2000 (inl "m1") "e3") world_two_rows).
Proof.
  apply (X13_a_second_recovery_pass_adds_no_job 2000 3000
           (env_at 2000 (inl "m1") "e3") (env_at 3000 (inl "m1") "e3") world_two_rows);
    try reflexivity; try (simpl; lia).
  intros r Hin. vm_compute in Hin. destruct Hin as [<-|[<-|[]]]; discriminate.
Defined.

(** ** The stale branch of the loop *)

Lemma filter_perm_bool {A} (f : A -> bool) (l l' : list A) :
  Permutation l l' -> Permutation (List.filter f l) (List.filter f l').
Proof.
  induction 1 as [|x l l' _ IH|x y l|l1 l2 l3 _ IH1 _ IH2]; simpl.
  - constructor.
  - destruct (f x); [constructor|]; exact IH.
  - destruct (f x), (f y); try reflexivity. apply perm_swap.
  - etransitivity; eassumption.
Qed.

Lemma filter_comm_bool {A} (f g : A -> bool) (l : list A) :
  List.filter f (List.filter g l) = List.filter g (List.filter f l).
Proof.
  induction l as [|a l IH]; simpl; [reflexivity|].
  destruct (g a) eqn:G, (f a) eqn:F; simpl; rewrite ?G, ?F, IH; reflexivity.
Qed.

Lemma pending_query_row tq d i r :
  getEmailById d i = Some r -> is_pending r = true -> tq <= scheduled_at r ->
  List.filter (has_id i) (pending_query tq d) = [r].
Proof.
  intros Hr Hp Htq. unfold getEmailById in Hr. apply single_filter_length in Hr.
  apply Permutation_length_1_inv. symmetry.
  etransitivity; [apply filter_perm_bool; apply order_by_scheduled_at_perm|].
  rewrite filter_comm_bool, Hr. simpl. rewrite Hp.
  apply Z.leb_le in Htq. rewrite Htq. reflexivity.
Qed.

Lemma requeue_fold_row_stale env i r l : forall w cur,
  List.filter (has_id i) l = [r] -> scheduled_at r < now env ->
  getEmailById (db w) i = Some cur ->
  getEmailById (db (fold_left (requeue_one env) l w)) i =
    Some (set_error FAILED stale_message (now env) cur).
Proof.
  induction l as [|a l IH]; intros w cur Hf Hlate Hc; simpl in *; [discriminate Hf|].
  destruct (has_id i a) eqn:Ha.
  - injection Hf as -> Hf.
    apply requeue_fold_row_untouched; [exact Hf|].
    rewrite (requeue_one_row env w r i cur Hc), Ha.
    apply Z.ltb_lt in Hlate. rewrite Hlate. reflexivity.
  - apply IH; [exact Hf|exact Hlate|].
    rewrite (requeue_one_row env w a i cur Hc), Ha, andb_false_r. reflexivity.
Qed.

(** X14: the loop's own check of the clock works for the rows it is given: a
    pending row that was still due in the future when the query ran but is
    overdue when the loop reaches it is marked FAILED with the message
    "Email scheduled time has passed during server restart", and recovery
    adds no job for it. *)
Theorem X14_row_falling_due_during_recovery_is_marked_FAILED :
  forall (tq : Z) (env : Env) (w : World) (i : string) (r : Email),
    db_ok env = true ->
    getEmailById (db w) i = Some r ->
    status r = SCHEDULED \/ status r = RETRYING ->
    tq <= scheduled_at r -> scheduled_at r < now env ->
    let w' := requeuePendingEmails tq env w in
    getEmailById (db w') i = Some (set_error FAILED stale_message (now env) r) /\
    (forall x, In x (jobs (queue w')) -> emailId (job_data x) = i ->
               In x (jobs (queue w))).
Proof.
  intros tq env w i r Hdb Hr Hst Htq Hlate w'. subst w'.
  apply is_pending_status in Hst.
  unfold requeuePendingEmails. rewrite Hdb. split.
  - apply (requeue_fold_row_stale env i r); try assumption.
    apply pending_query_row; assumption.
  - intros x Hx Hid.
    destruct (requeue_fold_frame env (pending_query tq (db w)) w) as (_ & _ & _ & _ & Hj).
    destruct (Hj x Hx) as [H|(r' & Hin & Hdue & Hdata & _)]; [exact H|].
    exfalso.
    assert (Hr' : In r' (List.filter (has_id i) (pending_query tq (db w)))).
    { apply filter_In. split; [exact Hin|].
      rewrite Hdata in Hid. simpl in Hid. unfold has_id. apply String.eqb_eq. exact Hid. }
    rewrite (pending_query_row tq (db w) i r Hr Hst Htq) in Hr'.
    destruct Hr' as [<-|[]]. lia.
Qed.

Lemma X14_witness :
  getEmailById (db world_restarted_across_due_time) "e1" =
    Some (set_error FAILED stale_message 6000 (bob_row 5000)) /\
  (forall x, In x (jobs (queue world_restarted_across_due_time)) ->
             emailId (job_data x) = "e1" -> In x (jobs (queue world_unqueued))).
Proof.
  apply (X14_row_falling_due_during_recovery_is_marked_FAILED 4000
           (env_at 6000 (inl "m1") "e2") world_unqueued "e1" (bob_row 5000));
    try reflexivity; try (simpl; lia).
  left. reflexivity.
Defined.

(** ** The constraints of table [emails] *)

Lemma same_identity_refl d : same_identity d d.
Proof. split; reflexivity. Qed.

Lemma same_identity_trans d1 d2 d3 :
  same_identity d1 d2 -> same_identity d2 d3 -> same_identity d1 d3.
Proof. intros [A B] [C D]. split; congruence. Qed.

Lemma same_identity_update i f d :
  (forall e, id (f e) = id e) ->
  (forall e, idempotency_key (f e) = idempotency_key e) ->
  same_identity d (update_emails i f d).
Proof.
  intros Hid Hkey. unfold same_identity, update_emails. simpl.
  induction (emails d) as [|e l [IH1 IH2]]; simpl; [auto|].
  unfold stored_keys in *. simpl. rewrite IH1, IH2.
  unfold upd. destruct (has_id i e); [rewrite Hid, Hkey|]; auto.
Qed.

Lemma same_identity_insert_log l d d' :
  same_identity d d' -> same_identity d (insert_log l d').
Proof. intros H. unfold same_identity. rewrite emails_insert_log. exact H. Qed.

Lemma same_identity_constraints d d' :
  same_identity d d' -> constraints_hold d -> constraints_hold d'.
Proof. intros [A B] [C D]. split; [rewrite A|rewrite B]; assumption. Qed.

Create HintDb identity.
#[local] Hint Resolve same_identity_refl same_identity_update same_identity_insert_log
  set_processing_id set_sent_id set_error_id : identity.

Lemma catch_block_identity env data msg w :
  same_identity (db w) (db (fst (catch_block env data msg w))).
Proof.
  unfold catch_block. destruct (is_rate_limited msg); simpl; auto with identity.
Qed.

Lemma processor_identity MAX env data w :
  same_identity (db w) (db (fst (processor MAX env data w))).
Proof.
  assert (H1 : same_identity (db w)
                 (update_emails (emailId data)
                    (set_processing (clock env ProcessingUpdatedAt)) (db w)))
    by auto with identity.
  unfold processor.
  destruct (negb _); [apply catch_block_identity|].
  destruct (getSenderById _ _ _) as [sender|];
    [|eapply same_identity_trans; [exact H1|apply catch_block_identity]].
  destruct (smtp env) as [mid|msg];
    [|eapply same_identity_trans; [exact H1|apply catch_block_identity]].
  assert (H2 : same_identity (db w)
                 (insert_log
                    (mkEmailLog (emailId data) "SENT"
                       ("Email sent successfully. Message ID: " +:+ mid)
                   (clock env SentAttemptedAt))
                    (update_emails (emailId data)
                       (set_sent (clock env SentAt) (clock env SentUpdatedAt))
                       (update_emails (emailId data)
                          (set_processing (clock env ProcessingUpdatedAt)) (db w))))).
  { apply same_identity_insert_log. eapply same_identity_trans; [exact H1|].
    auto with identity. }
  destruct (incrementRateLimit _ _ _) as [r [n|msg]]; [exact H2|].
  eapply same_identity_trans; [exact H2|]. apply catch_block_identity.
Qed.

Lemma runJob_identity MAX env j w : same_identity (db w) (db (runJob MAX env j w)).
Proof.
  unfold runJob. destruct (getJob (queue w) j) as [x|]; [|apply same_identity_refl].
  destruct (eligible x); [|apply same_identity_refl].
  pose proof (processor_identity MAX env (job_data x) w) as H.
  destruct (processor MAX env (job_data x) w) as [w' res]. exact H.
Qed.

Lemma requeue_one_identity env w r : same_identity (db w) (db (requeue_one env w r)).
Proof.
  unfold requeue_one, addEmailToQueue.
  destruct (scheduled_at r <? now env); [simpl; auto with identity|].
  destruct (queue_ok env); [|apply same_identity_refl].
  destruct (queue_add _ _ _ _) as [q' j']. apply same_identity_refl.
Qed.

Lemma requeuePendingEmails_identity tq env w :
  same_identity (db w) (db (requeuePendingEmails tq env w)).
Proof.
  unfold requeuePendingEmails. destruct (db_ok env); [|apply same_identity_refl].
  generalize (pending_query tq (db w)). intros l. revert w.
  induction l as [|r l IH]; intros w; simpl; [apply same_identity_refl|].
  eapply same_identity_trans; [apply requeue_one_identity|apply IH].
Qed.

Lemma stored_keys_app l1 l2 : stored_keys (l1 ++ l2) = (stored_keys l1 ++ stored_keys l2)%list.
Proof. unfold stored_keys. apply flat_map_app. Qed.

Lemma In_stored_keys k l : In k (stored_keys l) <-> existsb (has_key k) l = true.
Proof.
  unfold stored_keys. rewrite in_flat_map, existsb_exists.
  split; intros (e & Hin & H); exists e; (split; [exact Hin|]); unfold has_key in *.
  - destruct (idempotency_key e) as [k'|]; [|destruct H].
    destruct H as [->|[]]. apply String.eqb_refl.
  - destruct (idempotency_key e) as [k'|]; [|discriminate H].
    apply String.eqb_eq in H. left. exact H.
Qed.

Lemma In_ids i l : In i (map id l) <-> existsb (has_id i) l = true.
Proof.
  rewrite in_map_iff, existsb_exists.
  split; intros (e & H1 & H2).
  - exists e. split; [exact H2|]. unfold has_id. apply String.eqb_eq. exact H1.
  - exists e. split; [|exact H1]. unfold has_id in H2. apply String.eqb_eq. exact H2.
Qed.

Lemma NoDup_snoc {A} (l : list A) (a : A) : List.NoDup l -> ~ In a l -> List.NoDup (l ++ [a]).
Proof.
  intros Hl Ha. induction Hl as [|x l Hx Hl IH]; simpl.
  { constructor; [intros H; exact H|constructor]. }
  constructor.
  - rewrite in_app_iff. simpl. intros [H|[H|[]]]; [auto|]. apply Ha. left. symmetry. exact H.
  - apply IH. intros H. apply Ha. right. exact H.
Qed.

Lemma createEmail_constraints t fresh data d d' e :
  createEmail t fresh data d = inl (d', e) ->
  constraints_hold d -> constraints_hold d'.
Proof.
  intros Hc [Hids Hkeys].
  destruct (createEmail_inl _ _ _ _ _ _ Hc) as (He & _ & _ & _ & _ & _ & _ & Hconf).
  unfold insert_conflicts in Hconf. apply orb_false_iff in Hconf.
  destruct Hconf as [Hid Hkey].
  split; rewrite He.
  - rewrite map_app. simpl. apply NoDup_snoc; [exact Hids|].
    rewrite In_ids, Hid. discriminate.
  - rewrite stored_keys_app. unfold stored_keys at 2. simpl.
    destruct (idempotency_key e) as [k|]; simpl; [|rewrite app_nil_r; exact Hkeys].
    apply NoDup_snoc; [exact Hkeys|]. rewrite In_stored_keys, Hkey. discriminate.
Qed.

Lemma NoDup_flat_map_filter {A B} (f : A -> list B) (p : A -> bool) (l : list A) :
  List.NoDup (flat_map f l) -> List.NoDup (flat_map f (List.filter p l)).
Proof.
  induction l as [|a l IH]; simpl; [auto|]. intros H.
  apply NoDup_app_remove_l in H as Hl.
  destruct (p a); simpl; [|apply IH; exact Hl].
  revert H. generalize (f a). intros fa H.
  induction fa as [|b fa IHfa]; simpl in *; [apply IH; exact Hl|].
  inversion H as [|? ? Hb Hrest]; subst. constructor; [|apply IHfa; exact Hrest].
  rewrite in_app_iff in *. intros [Hin|Hin]; apply Hb; [left; exact Hin|right].
  apply in_flat_map in Hin. destruct Hin as (x & Hx & Hbx).
  apply in_flat_map. exists x. apply filter_In in Hx. tauto.
Qed.

Lemma deleteEmail_constraints i d : constraints_hold d -> constraints_hold (deleteEmail i d).
Proof.
  intros [Hids Hkeys]. unfold constraints_hold, deleteEmail. simpl. split.
  - clear Hkeys. induction (emails d) as [|e l IH]; simpl in *; [constructor|].
    inversion Hids as [|? ? Hn Hrest]; subst.
    destruct (negb (has_id i e)); simpl; [|apply IH; exact Hrest].
    constructor; [|apply IH; exact Hrest].
    intros Hin. apply Hn. apply in_map_iff in Hin. destruct Hin as (x & Hx & Hin).
    apply in_map_iff. exists x. apply filter_In in Hin. tauto.
  - apply NoDup_flat_map_filter. exact Hkeys.
Qed.

(** X15: the engine keeps the constraints of table [emails].  If no two rows
    share an id and no two rows share an idempotency key, the same holds
    after a schedule request, after a cancel request, after an attempt of
    the worker and after a recovery pass, whatever their outcome. *)
Theorem X15_the_engine_keeps_the_constraints_of_table_emails :
  forall (MAX tq : Z) (env : Env) (userId i : string) (j : JobId)
         (data : CreateEmailData) (w : World),
    constraints_hold (db w) ->
    constraints_hold (db (fst (scheduleEmailController env userId data w))) /\
    constraints_hold (db (fst (cancelEmailController env userId i w))) /\
    constraints_hold (db (runJob MAX env j w)) /\
    constraints_hold (db (requeuePendingEmails tq env w)).
Proof.
  intros MAX tq env userId i j data w Hc. split; [|split; [|split]].
  - destruct (getSenderById (db w) (c_senderId data) (Some userId)) as [s|] eqn:Hs.
    + destruct (createEmail (now env) (fresh_id env) data (db w)) as [[d e]|msg] eqn:Hcr.
      * rewrite (scheduleEmailController_created _ _ _ _ _ _ _ Hs Hcr).
        apply (createEmail_constraints _ _ _ _ _ _ Hcr Hc).
      * unfold scheduleEmailController. rewrite Hs, Hcr.
        destruct (match c_idempotencyKey data with Some _ => _ | None => _ end); exact Hc.
    + unfold scheduleEmailController. rewrite Hs. exact Hc.
  - destruct (getEmailById (db w) i) as [em|] eqn:Hem.
    + destruct (getSenderById (db w) (sender_id em) (Some userId)) as [s|] eqn:Hs.
      * rewrite (cancelEmailController_owner env userId i w em s Hem Hs).
        apply deleteEmail_constraints. exact Hc.
      * unfold cancelEmailController. rewrite Hem, Hs. exact Hc.
    + unfold cancelEmailController. rewrite Hem. exact Hc.
  - apply (same_identity_constraints (db w)); [apply runJob_identity|exact Hc].
  - apply (same_identity_constraints (db w)); [apply requeuePendingEmails_identity|exact Hc].
Qed.

Lemma X15_witness :
  constraints_hold
    (db (fst (scheduleEmailController (env_at 1500 (inl "m0") "e2") "u1"
                (to_bob 9000 (Some "k1")) (fst first_call_k1)))) /\
  constraints_hold
    (db (fst (cancelEmailController (env_at 1500 (inl "m0") "e2") "u1" "e1"
                (fst first_call_k1)))) /\
  constraints_hold (db (runJob 100 (env_at 1500 (inl "m0") "e2") (CustomId "k1")
                          (fst first_call_k1))) /\
  constraints_hold (db (requeuePendingEmails 1500 (env_at 1500 (inl "m0") "e2")
                          (fst first_call_k1))).
Proof.
  apply (X15_the_engine_keeps_the_constraints_of_table_emails 100 1500
           (env_at 1500 (inl "m0") "e2") "u1" "e1" (CustomId "k1")
           (to_bob 9000 (Some "k1")) (fst first_call_k1)).
  split; vm_compute; (constructor; [intros H; exact H|constructor]).
Defined.

(** ** Lookups under the constraints *)

Lemma unique_filter {A} (key : A -> list string) (p : A -> bool) (k : string)
      (l : list A) (e : A) :
  (forall x, p x = true <-> In k (key x)) ->
  List.NoDup (flat_map key l) -> In e l -> p e = true ->
  List.filter p l = [e].
Proof.
  intros Hp. induction l as [|a l IH]; intros Hnd Hin He; simpl in *; [destruct Hin|].
  assert (Hl : List.NoDup (flat_map key l)) by (apply NoDup_app_remove_l in Hnd; exact Hnd).
  assert (Hsep : forall x, In x l -> p a = true -> p x = true -> False).
  { intros x Hx Ha Hpx. apply Hp in Ha. apply Hp in Hpx.
    revert Hnd Ha. generalize (key a). intros ka Hnd Ha.
    induction ka as [|b ka IHka]; simpl in *; [destruct Ha|].
    inversion Hnd as [|? ? Hb Hrest]; subst.
    destruct Ha as [->|Ha]; [|apply IHka; assumption].
    apply Hb. apply in_app_iff. right. apply in_flat_map. exists x. auto. }
  destruct Hin as [->|Hin].
  - rewrite He. f_equal. apply filter_existsb_false.
    destruct (existsb p l) eqn:E; [|reflexivity].
    apply existsb_exists in E. destruct E as (x & Hx & Hpx).
    exfalso. eapply Hsep; eassumption.
  - destruct (p a) eqn:Ha; [exfalso; eapply (Hsep e); eauto|].
    apply IH; assumption.
Qed.

(** X16: under the constraints of the table the two lookups are exact:
    [getEmailById] returns a row precisely when that row is stored under the
    id, and [getEmailByIdempotencyKey] precisely when it is stored under the
    key; no stored row is hidden by [.single()]. *)
Theorem X16_lookups_find_exactly_the_stored_row :
  forall (d : Db) (i k : string) (e : Email),
    constraints_hold d ->
    (getEmailById d i = Some e <-> In e (emails d) /\ id e = i) /\
    (getEmailByIdempotencyKey d k = Some e <->
     In e (emails d) /\ idempotency_key e = Some k).
Proof.
  intros d s k e [Hids Hkeys]. split; split.
  - intros H. unfold getEmailById in H. apply single_filter_length in H.
    assert (Hin : In e (List.filter (has_id s) (emails d))) by (rewrite H; left; reflexivity).
    apply filter_In in Hin. destruct Hin as [Hin Hid].
    split; [exact Hin|]. apply String.eqb_eq. exact Hid.
  - intros [Hin Hid]. unfold getEmailById.
    rewrite (unique_filter (fun e => [id e]) (has_id s) s (emails d) e); try assumption.
    + reflexivity.
    + intros x. unfold has_id. rewrite String.eqb_eq. simpl. intuition.
    + unfold has_id. apply String.eqb_eq. exact Hid.
  - intros H. unfold getEmailByIdempotencyKey in H. apply single_filter_length in H.
    assert (Hin : In e (List.filter (has_key k) (emails d))) by (rewrite H; left; reflexivity).
    apply filter_In in Hin. destruct Hin as [Hin Hk].
    split; [exact Hin|]. unfold has_key in Hk.
    destruct (idempotency_key e) as [k0|]; [|discriminate Hk].
    apply String.eqb_eq in Hk. subst k0. reflexivity.
  - intros [Hin Hk]. unfold getEmailByIdempotencyKey.
    rewrite (unique_filter
               (fun e => match idempotency_key e with Some k => [k] | None => [] end)
               (has_key k) k (emails d) e); try assumption.
    + reflexivity.
    + intros x. unfold has_key. destruct (idempotency_key x) as [k0|]; simpl.
      * rewrite String.eqb_eq. intuition.
      * intuition discriminate.
    + unfold has_key. rewrite Hk. apply String.eqb_refl.
Qed.

Lemma X16_witness :
  (getEmailById (db (fst first_call_k1)) "e1" = Some bob_key_row <->
   In bob_key_row (emails (db (fst first_call_k1))) /\ id bob_key_row = "e1") /\
  (getEmailByIdempotencyKey (db (fst first_call_k1)) "k1" = Some bob_key_row <->
   In bob_key_row (emails (db (fst first_call_k1))) /\
   idempotency_key bob_key_row = Some "k1").
Proof.
  apply (X16_lookups_find_exactly_the_stored_row (db (fst first_call_k1)) "e1" "k1"
           bob_key_row).
  split; vm_compute; (constructor; [intros H; exact H|constructor]).
Defined.

(** ** Ownership *)

Lemma getSenderById_owned d sid userId s :
  userId <> EmptyString ->
  getSenderById d sid (Some userId) = Some s -> owns d userId sid = true.
Proof.
  intros Hne H. unfold getSenderById in H. apply single_filter_length in H.
  assert (Hin : In s (List.filter
                        (fun s => String.eqb (s_id s) sid &&
                                  (if String.eqb userId EmptyString then true
                                   else String.eqb (s_user_id s) userId)) (senders d)))
    by (rewrite H; left; reflexivity).
  apply filter_In in Hin. destruct Hin as [Hin Hp].
  apply String.eqb_neq in Hne. rewrite Hne in Hp.
  unfold owns. apply existsb_exists. exists s. auto.
Qed.

(** X17: a user who owns no sender with the requested id cannot schedule for
    it, and cannot cancel an email of it: the request is answered 403 and
    the world stays exactly as it was; cancelling an id that is not stored
    is answered 404, again without any change. *)
Theorem X17_requests_of_a_stranger_change_nothing :
  forall (env : Env) (userId i : string) (data : CreateEmailData) (w : World),
    userId <> EmptyString ->
    (owns (db w) userId (c_senderId data) = false ->
     scheduleEmailController env userId data w =
       (w, mkResponse 403 "Sender not found or access denied" None)) /\
    (forall em, getEmailById (db w) i = Some em ->
                owns (db w) userId (sender_id em) = false ->
                cancelEmailController env userId i w =
                  (w, mkResponse 403 "Access denied" None)) /\
    (getEmailById (db w) i = None ->
     cancelEmailController env userId i w = (w, mkResponse 404 "Email not found" None)).
Proof.
  intros env userId i data w Hne. split; [|split].
  - intros Hno. unfold scheduleEmailController.
    destruct (getSenderById (db w) (c_senderId data) (Some userId)) as [s|] eqn:Hs;
      [|reflexivity].
    rewrite (getSenderById_owned _ _ _ _ Hne Hs) in Hno. discriminate Hno.
  - intros em Hem Hno. unfold cancelEmailController. rewrite Hem.
    destruct (getSenderById (db w) (sender_id em) (Some userId)) as [s|] eqn:Hs;
      [|reflexivity].
    rewrite (getSenderById_owned _ _ _ _ Hne Hs) in Hno. discriminate Hno.
  - intros Hnone. unfold cancelEmailController. rewrite Hnone. reflexivity.
Qed.

Lemma X17_witness :
  (owns (db world_scheduled) "u2" "s1" = false ->
   scheduleEmailController (env_at 2000 (inl "m0") "e2") "u2" (to_bob 9000 None)
     world_scheduled =
     (world_scheduled, mkResponse 403 "Sender not found or access denied" None)) /\
  (forall em, getEmailById (db world_scheduled) "e1" = Some em ->
              owns (db world_scheduled) "u2" (sender_id em) = false ->
              cancelEmailController (env_at 2000 (inl "m0") "e2") "u2" "e1" world_scheduled =
                (world_scheduled, mkResponse 403 "Access denied" None)) /\
  (getEmailById (db world_scheduled) "e1" = None ->
   cancelEmailController (env_at 2000 (inl "m0") "e2") "u2" "e1" world_scheduled =
     (world_scheduled, mkResponse 404 "Email not found" None)).
Proof.
  apply (X17_requests_of_a_stranger_change_nothing (env_at 2000 (inl "m0") "e2")
           "u2" "e1" (to_bob 9000 None) world_scheduled).
  discriminate.
Defined.

(** ** Listing *)

Lemma In_firstn_bool {A} (n : nat) (l : list A) (x : A) : In x (firstn n l) -> In x l.
Proof.
  revert l. induction n as [|n IH]; intros [|a l]; simpl; try tauto.
  intros [H|H]; [left; exact H|right; apply IH; exact H].
Qed.

Lemma In_skipn_bool {A} (n : nat) (l : list A) (x : A) : In x (skipn n l) -> In x l.
Proof.
  revert l. induction n as [|n IH]; intros [|a l]; simpl; try tauto.
  intros H. right. apply IH. exact H.
Qed.

Lemma StronglySorted_firstn {A} (R : A -> A -> Prop) (n : nat) (l : list A) :
  StronglySorted R l -> StronglySorted R (firstn n l).
Proof.
  revert l. induction n as [|n IH]; intros [|a l] H; simpl; try constructor.
  - apply IH. apply StronglySorted_inv in H. tauto.
  - apply StronglySorted_inv in H. destruct H as [_ H].
    rewrite List.Forall_forall in *. intros x Hx. apply H. apply (In_firstn_bool n). exact Hx.
Qed.

Lemma StronglySorted_skipn {A} (R : A -> A -> Prop) (n : nat) (l : list A) :
  StronglySorted R l -> StronglySorted R (skipn n l).
Proof.
  revert l. induction n as [|n IH]; intros [|a l] H; simpl; try assumption.
  apply IH. apply StronglySorted_inv in H. tauto.
Qed.

Lemma In_insert_desc x e l :
  In x (insert_by_scheduled_at_desc e l) <-> x = e \/ In x l.
Proof.
  induction l as [|y l IH]; simpl; [intuition|].
  destruct (scheduled_at y <=? scheduled_at e); simpl; [intuition|].
  rewrite IH. intuition.
Qed.

Lemma In_order_desc x l : In x (order_by_scheduled_at_desc l) <-> In x l.
Proof.
  induction l as [|y l IH]; simpl; [reflexivity|].
  rewrite In_insert_desc, IH. intuition.
Qed.

Lemma insert_desc_sorted e l :
  Sorted later_first l -> Sorted later_first (insert_by_scheduled_at_desc e l).
Proof.
  induction l as [|x l IH]; intros Hs; simpl.
  - repeat constructor.
  - destruct (scheduled_at x <=? scheduled_at e) eqn:E.
    + constructor; [exact Hs|]. constructor. apply Z.leb_le. exact E.
    + apply Z.leb_gt in E. inversion Hs as [|? ? Hs' Hhd]; subst.
      constructor; [apply IH; exact Hs'|].
      destruct l as [|y l]; simpl.
      * constructor. unfold later_first. lia.
      * destruct (scheduled_at y <=? scheduled_at e).
        -- constructor. unfold later_first. lia.
        -- inversion Hhd; subst. constructor. assumption.
Qed.

Lemma order_desc_sorted l : StronglySorted later_first (order_by_scheduled_at_desc l).
Proof.
  apply Sorted_StronglySorted; [intros a b c; unfold later_first; lia|].
  induction l as [|x l IH]; simpl; [constructor|].
  apply insert_desc_sorted. exact IH.
Qed.

Lemma paginate_In f rows x : In x (paginate f rows) -> In x rows.
Proof.
  unfold paginate. destruct (truthy_nat (f_offset f)) as [off|].
  - intros H. apply In_firstn_bool in H. apply In_skipn_bool in H. exact H.
  - destruct (truthy_nat (f_limit f)) as [n|]; [apply In_firstn_bool|auto].
Qed.

Lemma paginate_sorted f rows :
  StronglySorted later_first rows -> StronglySorted later_first (paginate f rows).
Proof.
  intros H. unfold paginate. destruct (truthy_nat (f_offset f)) as [off|].
  - apply StronglySorted_firstn, StronglySorted_skipn. exact H.
  - destruct (truthy_nat (f_limit f)) as [n|]; [apply StronglySorted_firstn|]; exact H.
Qed.

Lemma paginate_length f rows n :
  truthy_nat (f_limit f) = Some n -> (length (paginate f rows) <= n)%nat.
Proof.
  intros Hn. unfold paginate. rewrite Hn.
  destruct (truthy_nat (f_offset f)); apply firstn_le_length.
Qed.

Lemma apply_filters_spec f rows :
  (forall e, In e (apply_filters f rows) ->
             In e rows /\ (forall st, f_status f = Some st -> status e = st)) /\
  StronglySorted later_first (apply_filters f rows) /\
  (forall n, truthy_nat (f_limit f) = Some n -> (length (apply_filters f rows) <= n)%nat).
Proof.
  unfold apply_filters. split; [|split].
  - intros e He. apply paginate_In in He. rewrite In_order_desc in He.
    destruct (f_status f) as [st|].
    + apply filter_In in He. destruct He as [Hin Hst]. split; [exact Hin|].
      intros st' Hst'. injection Hst' as <-.
      destruct (status e), st; simpl in Hst; try discriminate; reflexivity.
    + split; [exact He|]. intros st Hst. discriminate Hst.
  - apply paginate_sorted, order_desc_sorted.
  - intros n Hn. apply paginate_length. exact Hn.
Qed.

Lemma getEmailsByUserId_cases d userId f :
  getEmailsByUserId d userId f = [] \/
  getEmailsByUserId d userId f =
    apply_filters f
      (List.filter
         (fun e => existsb (String.eqb (sender_id e))
                     (map s_id (List.filter (fun s => String.eqb (s_user_id s) userId)
                                  (senders d))))
         (emails d)).
Proof.
  unfold getEmailsByUserId.
  destruct (map s_id (List.filter (fun s => String.eqb (s_user_id s) userId) (senders d)));
    [left|right]; reflexivity.
Qed.

(** X18: what the two listing functions return.  Every email listed for a
    user is stored and belongs to a sender that user owns, every email
    listed for a sender belongs to it; with a status filter all listed
    emails have that status; the list is ordered latest first; with a limit
    it is no longer than the limit; and a user who owns no sender gets the
    empty list. *)
Theorem X18_listings_are_owned_filtered_ordered_and_limited :
  forall (d : Db) (userId sid : string) (f : EmailFilters),
    let mine := getEmailsByUserId d userId f in
    let of_sender := getEmailsBySenderId d sid f in
    (forall e, In e mine ->
       In e (emails d) /\ owns d userId (sender_id e) = true /\
       (forall st, f_status f = Some st -> status e = st)) /\
    (forall e, In e of_sender ->
       In e (emails d) /\ sender_id e = sid /\
       (forall st, f_status f = Some st -> status e = st)) /\
    StronglySorted later_first mine /\ StronglySorted later_first of_sender /\
    (forall n, truthy_nat (f_limit f) = Some n ->
               (length mine <= n)%nat /\ (length of_sender <= n)%nat) /\
    ((forall s, In s (senders d) -> s_user_id s <> userId) -> mine = []).
Proof.
  intros d userId sid f mine of_sender. subst mine of_sender.
  set (mySenders := List.filter (fun s => String.eqb (s_user_id s) userId) (senders d)).
  set (rowsU := List.filter (fun e => existsb (String.eqb (sender_id e)) (map s_id mySenders))
                  (emails d)).
  set (rowsS := List.filter (fun e => String.eqb (sender_id e) sid) (emails d)).
  change (getEmailsBySenderId d sid f) with (apply_filters f rowsS).
  destruct (apply_filters_spec f rowsU) as (HinU & HsU & HlU).
  destruct (apply_filters_spec f rowsS) as (HinS & HsS & HlS).
  assert (Hown : forall e, In e rowsU -> In e (emails d) /\ owns d userId (sender_id e) = true).
  { intros e He. apply filter_In in He. destruct He as [Hin Hex]. split; [exact Hin|].
    apply existsb_exists in Hex. destruct Hex as (i & Hi & Hei).
    apply in_map_iff in Hi. destruct Hi as (s & <- & Hs).
    apply filter_In in Hs. destruct Hs as [Hs Hu].
    unfold owns. apply existsb_exists. exists s. split; [exact Hs|].
    apply String.eqb_eq in Hei. rewrite Hei, String.eqb_refl, Hu. reflexivity. }
  split; [|split; [|split; [|split; [|split]]]].
  - intros e He.
    destruct (getEmailsByUserId_cases d userId f) as [H|H]; rewrite H in He; [destruct He|].
    destruct (HinU e He) as [Hin Hst]. destruct (Hown e Hin). auto.
  - intros e He. destruct (HinS e He) as [Hin Hst].
    apply filter_In in Hin. destruct Hin as [Hin Hsid].
    apply String.eqb_eq in Hsid. auto.
  - destruct (getEmailsByUserId_cases d userId f) as [H|H]; rewrite H; [constructor|exact HsU].
  - exact HsS.
  - intros n Hn. split; [|apply HlS; exact Hn].
    destruct (getEmailsByUserId_cases d userId f) as [H|H]; rewrite H; [simpl; lia|].
    apply HlU. exact Hn.
  - intros Hnone. unfold getEmailsByUserId.
    assert (Hempty : mySenders = []).
    { unfold mySenders. apply filter_existsb_false.
      destruct (existsb _ (senders d)) eqn:E; [|reflexivity].
      apply existsb_exists in E. destruct E as (s & Hs & Hu).
      apply String.eqb_eq in Hu. exfalso. exact (Hnone s Hs Hu). }
    fold mySenders. rewrite Hempty. reflexivity.
Qed.

Lemma X18_witness :
  let mine := getEmailsByUserId (db world_listing) "u1"
                (mkFilters (Some SCHEDULED) (Some 2%nat) None) in
  map id mine = ["e2"; "e1"] /\
  (forall e, In e mine ->
     In e (emails (db world_listing)) /\ owns (db world_listing) "u1" (sender_id e) = true /\
     (forall st, Some SCHEDULED = Some st -> status e = st)) /\
  ((forall s, In s (senders (db world_listing)) -> s_user_id s <> "u9") ->
   getEmailsByUserId (db world_listing) "u9" (mkFilters (Some SCHEDULED) (Some 2%nat) None) = []).
Proof.
  split; [vm_compute; reflexivity|].
  destruct (X18_listings_are_owned_filtered_ordered_and_limited (db world_listing) "u1" "s1"
              (mkFilters (Some SCHEDULED) (Some 2%nat) None)) as (H1 & _).
  split; [exact H1|].
  destruct (X18_listings_are_owned_filtered_ordered_and_limited (db world_listing) "u9" "s1"
              (mkFilters (Some SCHEDULED) (Some 2%nat) None)) as (_ & _ & _ & _ & _ & H6).
  exact H6.
Defined.

(** ** Statistics *)

Lemma status_counts_add_up (l : list Email) :
  (length (List.filter is_pending l)
   + length (List.filter (fun e => EmailStatus_eqb (status e) SENT) l)
   + length (List.filter (fun e => EmailStatus_eqb (status e) FAILED) l)
   = length l)%nat.
Proof.
  induction l as [|e l IH]; simpl; [reflexivity|].
  unfold is_pending at 1. destruct (status e); simpl; lia.
Qed.

Lemma filter_and_length {A} (p q : A -> bool) (l : list A) :
  (length (List.filter (fun a => p a && q a) l) <= length (List.filter p l))%nat.
Proof.
  induction l as [|a l IH]; simpl; [lia|].
  destruct (p a), (q a); simpl; lia.
Qed.

(** X19: the statistics of a user add up: every email counted is counted as
    exactly one of scheduled (SCHEDULED or RETRYING), sent or failed, so the
    three totals sum to the number of emails fetched, which is at most
    10000; the number pending today never exceeds the number scheduled. *)
Theorem X19_statistics_partition_the_emails_of_the_user :
  forall (z : Zone) (now : Z) (userId : string) (d : Db),
    let st := getEmailStatsController z now userId d in
    let fetched :=
      getEmailsByUserId d userId (mkFilters None (Some (N.to_nat 10000)) None) in
    (totalScheduled st + totalSent st + totalFailed st = length fetched)%nat /\
    (length fetched <= N.to_nat 10000)%nat /\
    (pendingToday st <= totalScheduled st)%nat.
Proof.
  intros z now userId d st fetched. subst st fetched.
  unfold getEmailStatsController. simpl. split; [apply status_counts_add_up|]. split.
  - destruct (getEmailsByUserId_cases d userId (mkFilters None (Some (N.to_nat 10000)) None))
      as [H|H]; rewrite H; [simpl; lia|].
    apply apply_filters_spec. vm_compute. reflexivity.
  - apply filter_and_length.
Qed.

(** ** Redis *)

(** X20: the delay before the Redis connection is retried grows by 50 ms per
    retry and never exceeds 2 s: it is [times * 50] below the 40th retry and
    2000 from there on, and it never decreases from one retry to the next. *)
Theorem X20_redis_retry_delay_grows_to_two_seconds :
  forall (times times' : Z),
    0 <= times -> times <= times' ->
    0 <= retryStrategy times <= 2000 /\
    retryStrategy times <= retryStrategy times' /\
    (times < 40 -> retryStrategy times = times * 50) /\
    (40 <= times -> retryStrategy times = 2000).
Proof. intros times times' H0 Hle. unfold retryStrategy. lia. Qed.

Lemma X20_witness :
  0 <= retryStrategy 3 <= 2000 /\
  retryStrategy 3 <= retryStrategy 50 /\
  (3 < 40 -> retryStrategy 3 = 3 * 50) /\
  (40 <= 3 -> retryStrategy 3 = 2000).
Proof. apply (X20_redis_retry_delay_grows_to_two_seconds 3 50); lia. Defined.

(** X21: [resetRateLimit] starts the sender's current hour afresh: after a
    reset that Redis accepted a check in that hour reports 0, and the
    deliveries counted afterwards are counted from 0; a reset that Redis
    refused changes nothing and passes the error on. *)
Theorem X21_reset_starts_the_hour_afresh :
  forall (MAX : Z) (err sender : string) (env : Env) (envs : list Env) (r : gmap string Z),
    redis_get_ok env = true ->
    Forall (fun e => redis_incr_ok e = true /\
                     getCurrentHourWindow (zone e) (now e) =
                       getCurrentHourWindow (zone env) (now env)) envs ->
    let r0 := fst (resetRateLimit true err (zone env) (now env) r sender) in
    current (checkRateLimit MAX env r0 sender) = 0 /\
    current (checkRateLimit MAX env (count_deliveries sender envs r0) sender) =
      Z.of_nat (length envs) /\
    resetRateLimit false err (zone env) (now env) r sender = (r, inr err).
Proof.
  intros MAX err sender env envs r Hok Hall r0. subst r0.
  assert (H0 : default 0 (delete (rate_key (zone env) sender (now env)) r
                            !! rate_key (zone env) sender (now env)) = 0)
    by (rewrite lookup_delete_eq; reflexivity).
  unfold checkRateLimit, resetRateLimit. rewrite Hok. simpl.
  split; [exact H0|]. split; [|reflexivity].
  rewrite (count_deliveries_in_window sender (zone env) (now env) envs _ Hall), H0. lia.
Qed.

Lemma X21_witness :
  let env := env_at 3601000 (inl "m1") "e2" in
  let r0 := fst (resetRateLimit true "Connection is closed." utc 3601000 (redis world_busy)
                   "s1") in
  current (checkRateLimit 100 env r0 "s1") = 0 /\
  current (checkRateLimit 100 env (count_deliveries "s1" [env; env] r0) "s1") =
    Z.of_nat (length [env; env]) /\
  resetRateLimit false "Connection is closed." utc 3601000 (redis world_busy) "s1" =
    (redis world_busy, inr "Connection is closed.").
Proof.
  apply (X21_reset_starts_the_hour_afresh 100 "Connection is closed." "s1"
           (env_at 3601000 (inl "m1") "e2")
           [env_at 3601000 (inl "m1") "e2"; env_at 3601000 (inl "m1") "e2"]
           (redis world_busy)).
  - reflexivity.
  - repeat constructor.
Defined.


(** ** The accepted request *)




(** ** Cancellation, as the database sees it *)

Lemma getEmailById_other_delete i j d :
  i <> j -> getEmailById (deleteEmail i d) j = getEmailById d j.
Proof.
  intros Hne. unfold getEmailById, deleteEmail. simpl.
  rewrite filter_comm_bool.
  assert (H : forall l, List.filter (fun e => negb (has_id i e)) (List.filter (has_id j) l)
                        = List.filter (has_id j) l).
  { induction l as [|e l IH]; simpl; [reflexivity|].
    destruct (has_id j e) eqn:E; simpl; [|exact IH].
    assert (Hi : has_id i e = false).
    { unfold has_id in *. apply String.eqb_eq in E. apply String.eqb_neq. congruence. }
    rewrite Hi. simpl. rewrite IH. reflexivity. }
  rewrite H. reflexivity.
Qed.

(** X23: a cancel request of the owner removes the row of that id and only
    that row: it is no longer found and every row stored under another id is
    found as before; the cascade removes the log entries of the row and no
    others.  The CANCELLED log entry refers to the row that has just been
    deleted and is refused by the foreign key: none is written, and the
    request is answered 500 "Failed to cancel email" although the row is
    gone.  Senders, queue, counters and transport are left alone. *)
Theorem X23_cancel_removes_the_one_row_and_nothing_else :
  forall (env : Env) (userId i : string) (w : World) (em : Email) (owner : Sender),
    getEmailById (db w) i = Some em ->
    getSenderById (db w) (sender_id em) (Some userId) = Some owner ->
    let r := cancelEmailController env userId i w in
    snd r = mkResponse 500 "Failed to cancel email" None /\
    getEmailById (db (fst r)) i = None /\
    (forall j, j <> i -> getEmailById (db (fst r)) j = getEmailById (db w) j) /\
    email_logs (db (fst r)) =
      List.filter (fun l => negb (String.eqb (log_email_id l) i)) (email_logs (db w)) /\
    senders (db (fst r)) = senders (db w) /\
    queue (fst r) = queue w /\ redis (fst r) = redis w /\ mail_calls (fst r) = mail_calls w.
Proof.
  intros env userId i w em owner Hem Hown r. subst r.
  rewrite (cancelEmailController_owner env userId i w em owner Hem Hown). simpl.
  split; [reflexivity|]. split; [apply getEmailById_deleteEmail|].
  split; [|repeat split].
  intros j Hne. apply getEmailById_other_delete. congruence.
Qed.

Lemma X23_witness :
  let r := cancelEmailController (env_at 2000 (inl "m0") "e9") "u1" "e1" world_two_rows in
  snd r = mkResponse 500 "Failed to cancel email" None /\
  getEmailById (db (fst r)) "e1" = None /\
  (forall j, j <> "e1" -> getEmailById (db (fst r)) j = getEmailById (db world_two_rows) j) /\
  email_logs (db (fst r)) =
    [mkEmailLog "e2" "SCHEDULED" "Email scheduled successfully" 1100] /\
  senders (db (fst r)) = senders (db world_two_rows) /\
  queue (fst r) = queue world_two_rows /\ redis (fst r) = redis world_two_rows /\
  mail_calls (fst r) = mail_calls world_two_rows.
Proof.
  apply (X23_cancel_removes_the_one_row_and_nothing_else (env_at 2000 (inl "m0") "e9")
           "u1" "e1" world_two_rows (bob_row 5000) alice); reflexivity.
Defined.

(** ** The retry that succeeds *)

(** X24: FAILED is not final while the job has attempts left.  When an
    attempt fails at the transport and the next attempt on the job succeeds,
    the row ends SENT with the time of the second attempt, the transport has
    been called twice, and the job is completed; the error message of the
    failed attempt stays on the row. *)
Theorem X24_a_retry_that_succeeds_turns_FAILED_into_SENT :
  forall (MAX : Z) (env1 env2 : Env) (j : JobId) (x : Job) (w : World)
         (sender : Sender) (msg mid : string) (e : Email),
    getJob (queue w) j = Some x -> eligible x = true ->
    (S (attemptsMade x) < attempts)%nat ->
    allowed (checkRateLimit MAX env1 (redis w) (senderId (job_data x))) = true ->
    allowed (checkRateLimit MAX env2 (redis w) (senderId (job_data x))) = true ->
    getSenderById (db w) (senderId (job_data x)) None = Some sender ->
    smtp env1 = inr msg -> is_rate_limited msg = false ->
    smtp env2 = inl mid -> redis_incr_ok env2 = true -> redis_expire_ok env2 = true ->
    getEmailById (db w) (emailId (job_data x)) = Some e ->
    let w1 := runJob MAX env1 j w in
    let w2 := runJob MAX env2 j w1 in
    (status <$> getEmailById (db w1) (emailId (job_data x))) = Some FAILED /\
    (exists e2, getEmailById (db w2) (emailId (job_data x)) = Some e2 /\
                status e2 = SENT /\ sent_at e2 = Some (clock env2 SentAt) /\
                error_message e2 = Some msg) /\
    mail_calls w2 =
      (mail_calls w ++ [mail_options sender (job_data x); mail_options sender (job_data x)])%list /\
    (job_state <$> getJob (queue w2) j) = Some Completed.
Proof.
  intros MAX env1 env2 j x w sender msg mid e Hj Hel Hleft Ha1 Ha2 Hs Hm1 Hr Hm2 Hi Hx He
         w1 w2.
  pose proof (failed_attempt_row MAX env1 j x w sender msg Hj Hel Ha1 Hs Hm1 Hr e He) as Hrow1.
  pose proof (failed_attempt_job MAX env1 j x w sender msg Hj Hel Ha1 Hs Hm1 Hr) as Hjob1.
  pose proof (failed_attempt_mail MAX env1 j x w sender msg Hj Hel Ha1 Hs Hm1 Hr) as Hmail1.
  fold w1 in Hrow1, Hjob1, Hmail1.
  set (x1 := settle env1 (inr msg) x) in *.
  assert (Hdata : job_data x1 = job_data x) by apply settle_job_data.
  assert (Hel1 : eligible x1 = true).
  { unfold x1. rewrite settle_eligible. apply Nat.ltb_lt. exact Hleft. }
  assert (Hw1 : redis w1 = redis w /\ senders (db w1) = senders (db w)).
  { destruct (runJob_world MAX env1 j x w Hj Hel) as (Hdb & Hredis & _).
    rewrite (processor_send_failed MAX env1 (job_data x) w sender msg Ha1 Hs Hm1) in Hdb, Hredis.
    rewrite (catch_block_failed env1 (job_data x) msg _ Hr) in Hdb, Hredis.
    unfold w1. rewrite Hdb, Hredis. split; [reflexivity|].
    simpl. rewrite senders_insert_log. reflexivity. }
  destruct Hw1 as [Hredis1 Hsenders1].
  assert (Ha2' : allowed (checkRateLimit MAX env2 (redis w1) (senderId (job_data x1))) = true)
    by (rewrite Hredis1, Hdata; exact Ha2).
  assert (Hs' : getSenderById (db w1) (senderId (job_data x1)) None = Some sender).
  { unfold getSenderById. rewrite Hsenders1, Hdata. exact Hs. }
  pose proof (processor_success MAX env2 x1 w1 sender mid Ha2' Hs' Hm2 Hi Hx) as Hp.
  pose proof (success_job MAX env2 j x1 w1 sender mid Hjob1 Hel1 Ha2' Hs' Hm2 Hi Hx) as Hjob2.
  destruct (runJob_world MAX env2 j x1 w1 Hjob1 Hel1) as (Hdb2 & _ & Hmail2).
  rewrite Hp in Hdb2, Hmail2. simpl in Hdb2, Hmail2. fold w2 in Hdb2, Hmail2, Hjob2.
  rewrite Hdata in Hdb2, Hmail2.
  split; [rewrite Hrow1; reflexivity|]. split.
  { eexists. split.
    - rewrite Hdb2, getEmailById_insert_log.
      apply getEmailById_update_same; [apply set_sent_id|].
      apply getEmailById_update_same; [apply set_processing_id|exact Hrow1].
    - repeat split; reflexivity. }
  split; [rewrite Hmail2, Hmail1, <- app_assoc; reflexivity|].
  rewrite Hjob2. reflexivity.
Qed.

Lemma X24_witness :
  let w1 := runJob 100 (env_at 5000 (inr "Connection timeout") "e2") (AutoId 1) world_scheduled in
  let w2 := runJob 100 (env_at 9000 (inl "m1") "e2") (AutoId 1) w1 in
  (status <$> getEmailById (db w1) "e1") = Some FAILED /\
  (exists e2, getEmailById (db w2) "e1" = Some e2 /\
              status e2 = SENT /\ sent_at e2 = Some 11000 /\
              error_message e2 = Some "Connection timeout") /\
  mail_calls w2 =
    ([] ++ [mail_options alice bob_data; mail_options alice bob_data])%list /\
  (job_state <$> getJob (queue w2) (AutoId 1)) = Some Completed.
Proof.
  apply (X24_a_retry_that_succeeds_turns_FAILED_into_SENT 100
           (env_at 5000 (inr "Connection timeout") "e2") (env_at 9000 (inl "m1") "e2")
           (AutoId 1) (bob_job (Delayed 4000) 0 None) world_scheduled alice
           "Connection timeout" "m1" (bob_row 5000));
    try (vm_compute; reflexivity).
  vm_compute. lia.
Defined.
